(** * Gamepad: the virtual gamepad of gameplay/src (touch input, draw)

    A shallow embedding of [Gamepad.cpp] (the second unit of
    [src/gameplay/src/Theme.h]) and the properties stated about it.

    Numbers are modelled as the program has them:
    - [float] is IEEE 754 binary32 (precision 24, maximal exponent 128),
      through the Standard Library's executable [SpecFloat] operations,
      every operation rounding to nearest even once, as a C compiler does
      when it evaluates [float] expressions in single precision;
    - [unsigned int] is [N] below [2^32], with the wrap-around of
      [(unsigned int)-1] written out;
    - [int] is [Z]; an [int] operand of a [float] operator is converted
      first ([F32.of_int]).

    An [assert] that fails is modelled by [None].

    The arithmetic in the statements below is the program's: a comparison
    or a quotient written in a property is the single-precision one. *)

From Stdlib Require Import ZArith NArith Bool Lia.
From Stdlib Require Import Floats.SpecFloat.
From stdpp Require Import base option list.

Local Open Scope Z_scope.

(** ** Single-precision arithmetic *)

Module F32.

Definition prec : Z := 24.
Definition emax : Z := 128.

Definition float : Type := spec_float.

(** Conversion of a C [int] (or [unsigned int]) to [float]. *)
Definition of_int (z : Z) : float := binary_normalize prec emax z 0 false.

(** The literals of the source: [0.0f], [1.0f], [0.5f]. *)
Definition zero : float := S754_zero false.
Definition one : float := of_int 1.
Definition half : float := binary_normalize prec emax 1 (-1) false.

Definition add : float -> float -> float := SFadd prec emax.
Definition sub : float -> float -> float := SFsub prec emax.
Definition mul : float -> float -> float := SFmul prec emax.
Definition div : float -> float -> float := SFdiv prec emax.
Definition sqrt : float -> float := SFsqrt prec emax.
Definition neg : float -> float := SFopp.

(** [a <= b] and [a >= b] of C: false as soon as an operand is a NaN. *)
Definition le (a b : float) : bool :=
  match SFcompare a b with
  | Some (Lt | Eq) => true
  | _ => false
  end.

Definition ge (a b : float) : bool :=
  match SFcompare a b with
  | Some (Gt | Eq) => true
  | _ => false
  end.

(** The smallest positive [float], [2^-149] (about [1.4e-45f]). *)
Definition min_subnormal : float := S754_finite false 1 (-149).

End F32.

Declare Scope f32_scope.
Delimit Scope f32_scope with f32.
Infix "+" := F32.add : f32_scope.
Infix "-" := F32.sub : f32_scope.
Infix "*" := F32.mul : f32_scope.
Infix "/" := F32.div : f32_scope.
Notation "- a" := (F32.neg a) : f32_scope.
Infix "<=?" := F32.le : f32_scope.
Infix ">=?" := F32.ge (at level 70) : f32_scope.

(** ** Vector2 *)

Module Vector2.

Record t : Type := mk { x : F32.float; y : F32.float }.

(** Modelled from the spec: [Vector2::zero], absent from the sources;
    the vector [(0, 0)]. *)
Definition zero : t := mk F32.zero F32.zero.

(** Modelled from the spec: [Vector2::set(float, float)], absent from
    the sources; it overwrites both components. *)
Definition set (_ : t) (x' y' : F32.float) : t := mk x' y'.

(** Modelled from the spec: [Vector2::scale(float)], absent from the
    sources; it multiplies both components by the scalar. *)
Definition scale (v : t) (s : F32.float) : t :=
  mk (x v * s)%f32 (y v * s)%f32.

(** The length of a vector, [sqrt(x * x + y * y)] in single precision;
    [Gamepad.cpp] does not call it, the properties speak of it. *)
Definition length (v : t) : F32.float :=
  F32.sqrt (x v * x v + y v * y v)%f32.

(** Modelled from the spec: [Vector2::normalize], absent from the
    sources; the spec calls its result the unit vector in the direction
    of the vector: the vector divided by its length. *)
Definition normalize (v : t) : t :=
  scale v (F32.one / length v)%f32.

End Vector2.

(** ** Plain data of the gamepad *)

(** Modelled from the spec: the declarations of [Gamepad.h] ([Rect], the
    texture-coordinate struct, [ButtonState], [Button], [Joystick], the
    members of [Gamepad]) and of [Touch.h] are absent from the sources;
    the records below hold exactly the members [Gamepad.cpp] reads and
    writes, with the types its expressions give them. *)

Module Rect.
Record t : Type := mk {
  x : F32.float;
  y : F32.float;
  width : F32.float;
  height : F32.float
}.
End Rect.

Module UVs.
Record t : Type := mk {
  u1 : F32.float;
  v1 : F32.float;
  u2 : F32.float;
  v2 : F32.float
}.
End UVs.

(** The texture of the gamepad, as far as [Gamepad.cpp] looks at it:
    [getWidth()] and [getHeight()], taken after their conversion to
    [float] in the divisions of [setButton] and [setJoystick]. *)
Module Texture.
Record t : Type := mk {
  getWidth : F32.float;
  getHeight : F32.float
}.
End Texture.

Inductive ButtonState : Type :=
  | BUTTON_PRESSED
  | BUTTON_RELEASED.

(** The [int touchEvent] of [Gamepad::touch]: the three enumerators of
    [Touch::TouchEvent] the [switch] names, and any other value. *)
Inductive TouchEvent : Type :=
  | TOUCH_PRESS
  | TOUCH_RELEASE
  | TOUCH_MOVE
  | TOUCH_OTHER (value : Z).

Definition UINT_MAX : N := 4294967295%N.

(** Conversion of an [int] to [unsigned int]: reduction modulo [2^32]. *)
Definition to_uint (z : Z) : N := Z.to_N (z mod 4294967296).

(** [#define INVALID_CONTACT_INDEX ((unsigned int)-1)] *)
Definition INVALID_CONTACT_INDEX : N := to_uint (-1).

Module Button.

Record t : Type := mk {
  _pressed : ButtonState;
  _defaultTextureEnabled : bool;
  _focusTextureEnabled : bool;
  _contactIndex : N;
  _region : Rect.t;
  _defaultTexCoord : UVs.t;
  _focusTexCoord : UVs.t
}.

(** [Gamepad::Button::Button()]: the initialiser list sets four
    members; the other members keep what the storage [mem] held. *)
Definition new (mem : t) : t :=
  mk BUTTON_RELEASED false false INVALID_CONTACT_INDEX
     (_region mem) (_defaultTexCoord mem) (_focusTexCoord mem).

Definition set_region (b : t) (r : Rect.t) : t :=
  mk (_pressed b) (_defaultTextureEnabled b) (_focusTextureEnabled b)
     (_contactIndex b) r (_defaultTexCoord b) (_focusTexCoord b).

Definition set_defaultTexCoord (b : t) (uv : UVs.t) : t :=
  mk (_pressed b) true (_focusTextureEnabled b)
     (_contactIndex b) (_region b) uv (_focusTexCoord b).

Definition set_focusTexCoord (b : t) (uv : UVs.t) : t :=
  mk (_pressed b) (_defaultTextureEnabled b) true
     (_contactIndex b) (_region b) (_defaultTexCoord b) uv.

(** [_contactIndex = c; _pressed = s;] *)
Definition set_contact (b : t) (c : N) (s : ButtonState) : t :=
  mk s (_defaultTextureEnabled b) (_focusTextureEnabled b)
     c (_region b) (_defaultTexCoord b) (_focusTexCoord b).

End Button.

Module Joystick.

Record t : Type := mk {
  _displacement : Vector2.t;
  _direction : Vector2.t;
  _radius : F32.float;
  _defaultTextureInnerEnabled : bool;
  _defaultTextureOuterEnabled : bool;
  _contactIndex : N;
  _regionInner : Rect.t;
  _regionOuter : Rect.t;
  _defaultTexCoordInner : UVs.t;
  _defaultTexCoordOuter : UVs.t
}.

(** [Gamepad::Joystick::Joystick()]: the initialiser list sets six
    members; the other members keep what the storage [mem] held. *)
Definition new (mem : t) : t :=
  mk Vector2.zero Vector2.zero F32.zero false false INVALID_CONTACT_INDEX
     (_regionInner mem) (_regionOuter mem)
     (_defaultTexCoordInner mem) (_defaultTexCoordOuter mem).

Definition set_radius (j : t) (r : F32.float) : t :=
  mk (_displacement j) (_direction j) r
     (_defaultTextureInnerEnabled j) (_defaultTextureOuterEnabled j)
     (_contactIndex j) (_regionInner j) (_regionOuter j)
     (_defaultTexCoordInner j) (_defaultTexCoordOuter j).

Definition set_regionInner (j : t) (r : Rect.t) : t :=
  mk (_displacement j) (_direction j) (_radius j)
     (_defaultTextureInnerEnabled j) (_defaultTextureOuterEnabled j)
     (_contactIndex j) r (_regionOuter j)
     (_defaultTexCoordInner j) (_defaultTexCoordOuter j).

Definition set_regionOuter (j : t) (r : Rect.t) : t :=
  mk (_displacement j) (_direction j) (_radius j)
     (_defaultTextureInnerEnabled j) (_defaultTextureOuterEnabled j)
     (_contactIndex j) (_regionInner j) r
     (_defaultTexCoordInner j) (_defaultTexCoordOuter j).

Definition set_defaultTexCoordInner (j : t) (uv : UVs.t) : t :=
  mk (_displacement j) (_direction j) (_radius j)
     true (_defaultTextureOuterEnabled j)
     (_contactIndex j) (_regionInner j) (_regionOuter j)
     uv (_defaultTexCoordOuter j).

Definition set_defaultTexCoordOuter (j : t) (uv : UVs.t) : t :=
  mk (_displacement j) (_direction j) (_radius j)
     (_defaultTextureInnerEnabled j) true
     (_contactIndex j) (_regionInner j) (_regionOuter j)
     (_defaultTexCoordInner j) uv.

(** [_contactIndex = c; _displacement.set(0, 0); _direction.set(0, 0);] *)
Definition reset (j : t) (c : N) : t :=
  mk (Vector2.set (_displacement j) F32.zero F32.zero)
     (Vector2.set (_direction j) F32.zero F32.zero) (_radius j)
     (_defaultTextureInnerEnabled j) (_defaultTextureOuterEnabled j)
     c (_regionInner j) (_regionOuter j)
     (_defaultTexCoordInner j) (_defaultTexCoordOuter j).

(** [_direction = dir; _displacement = disp;] *)
Definition set_vectors (j : t) (dir disp : Vector2.t) : t :=
  mk disp dir (_radius j)
     (_defaultTextureInnerEnabled j) (_defaultTextureOuterEnabled j)
     (_contactIndex j) (_regionInner j) (_regionOuter j)
     (_defaultTexCoordInner j) (_defaultTexCoordOuter j).

End Joystick.

(** One call of [SpriteBatch::draw(x, y, width, height, u1, v1, u2, v2,
    color)]; the colour is the one [Gamepad::draw] was given. *)
Module Sprite.
Record t : Type := mk {
  x : F32.float;
  y : F32.float;
  width : F32.float;
  height : F32.float;
  uv : UVs.t
}.
End Sprite.

(** ** The gamepad *)

Module Gamepad.

(** [_joysticks] and [_buttons] are the arrays of [_joystickCount] and
    [_buttonCount] objects the constructor allocates; the counts are the
    lengths of the lists. *)
Record t : Type := mk {
  _joysticks : list Joystick.t;
  _buttons : list Button.t;
  _texture : Texture.t;
  _touches : list bool
}.

Definition _joystickCount (g : t) : N := N.of_nat (length (_joysticks g)).
Definition _buttonCount (g : t) : N := N.of_nat (length (_buttons g)).

Definition with_buttons (g : t) (bs : list Button.t) : t :=
  mk (_joysticks g) bs (_texture g) (_touches g).

Definition with_joysticks (g : t) (js : list Joystick.t) : t :=
  mk js (_buttons g) (_texture g) (_touches g).

(** The texture coordinates [setButton] and [setJoystick] compute from
    a texture region (the same four assignments, four times over):
    [u1 = x / w; v1 = 1.0f - y / h; u2 = u1 + width / w;
     v2 = v1 - height / h]. *)
Definition texCoord (tex : Texture.t) (r : Rect.t) : UVs.t :=
  let u1 := (Rect.x r / Texture.getWidth tex)%f32 in
  let v1 := (F32.one - (Rect.y r / Texture.getHeight tex))%f32 in
  let u2 := (u1 + (Rect.width r / Texture.getWidth tex))%f32 in
  let v2 := (v1 - (Rect.height r / Texture.getHeight tex))%f32 in
  UVs.mk u1 v1 u2 v2.

(** The member-wise copy of a rectangle ([_region.x = bounds->x; ...]). *)
Definition copyRect (r : Rect.t) : Rect.t :=
  Rect.mk (Rect.x r) (Rect.y r) (Rect.width r) (Rect.height r).

(** [Gamepad::setButton]; a null pointer is [None]. *)
Definition setButton (g : t) (buttonId : N)
    (bounds defaultTextureRegion focusTextureRegion : option Rect.t)
    : option t :=
  if (buttonId <? _buttonCount g)%N then
    b ← _buttons g !! N.to_nat buttonId;
    let b :=
      match bounds with
      | Some r => Button.set_region b (copyRect r)
      | None => b
      end in
    let b :=
      match defaultTextureRegion with
      | Some r => Button.set_defaultTexCoord b (texCoord (_texture g) r)
      | None => b
      end in
    let b :=
      match focusTextureRegion with
      | Some r => Button.set_focusTexCoord b (texCoord (_texture g) r)
      | None => b
      end in
    Some (with_buttons g (<[N.to_nat buttonId := b]> (_buttons g)))
  else None.

(** [Gamepad::getButtonState] *)
Definition getButtonState (g : t) (index : N) : option ButtonState :=
  if (index <? _buttonCount g)%N then
    Button._pressed <$> _buttons g !! N.to_nat index
  else None.

(** [Gamepad::setJoystick] *)
Definition setJoystick (g : t) (joystickId : N)
    (regionInner textureRegionInner regionOuter textureRegionOuter
      : option Rect.t)
    (radius : F32.float) : option t :=
  if (joystickId <? _joystickCount g)%N then
    j ← _joysticks g !! N.to_nat joystickId;
    let j := Joystick.set_radius j radius in
    let j :=
      match regionInner with
      | Some r => Joystick.set_regionInner j (copyRect r)
      | None => j
      end in
    let j :=
      match textureRegionInner with
      | Some r =>
          Joystick.set_defaultTexCoordInner j (texCoord (_texture g) r)
      | None => j
      end in
    let j :=
      match regionOuter with
      | Some r => Joystick.set_regionOuter j (copyRect r)
      | None => j
      end in
    let j :=
      match textureRegionOuter with
      | Some r =>
          Joystick.set_defaultTexCoordOuter j (texCoord (_texture g) r)
      | None => j
      end in
    Some (with_joysticks g (<[N.to_nat joystickId := j]> (_joysticks g)))
  else None.

(** [Gamepad::isJoystickActive] *)
Definition isJoystickActive (g : t) (index : N) : option bool :=
  if (index <? _joystickCount g)%N then
    (fun j => negb (Joystick._contactIndex j =? INVALID_CONTACT_INDEX)%N)
      <$> _joysticks g !! N.to_nat index
  else None.

(** [Gamepad::getJoystickState] *)
Definition getJoystickState (g : t) (index : N) : option Vector2.t :=
  if (index <? _joystickCount g)%N then
    Joystick._direction <$> _joysticks g !! N.to_nat index
  else None.

(** *** Drawing *)

(** The sprite of one button, if it draws one. *)
Definition drawButton (b : Button.t) : list Sprite.t :=
  let r := Button._region b in
  match Button._pressed b, Button._focusTextureEnabled b with
  | BUTTON_PRESSED, true =>
      [Sprite.mk (Rect.x r) (Rect.y r) (Rect.width r) (Rect.height r)
                 (Button._focusTexCoord b)]
  | _, _ =>
      if Button._defaultTextureEnabled b then
        [Sprite.mk (Rect.x r) (Rect.y r) (Rect.width r) (Rect.height r)
                   (Button._defaultTexCoord b)]
      else []
  end.

(** Whether the displacement lies within the radius, as both [draw] and
    [touch] test it:
    [dX * dX + dY * dY <= radius * radius]. *)
Definition withinRadius (dX dY radius : F32.float) : bool :=
  ((dX * dX) + (dY * dY) <=? radius * radius)%f32.

(** By how much [draw] moves the inner joggle off [_regionInner]: the
    displacement, or else [delta], the displacement normalised and
    scaled by the radius. *)
Definition innerJoggleOffset (j : Joystick.t) : Vector2.t :=
  let radius := Joystick._radius j in
  let displacementX := Vector2.x (Joystick._displacement j) in
  let displacementY := Vector2.y (Joystick._displacement j) in
  if withinRadius displacementX displacementY radius then
    Vector2.mk displacementX displacementY
  else
    let delta := Vector2.mk displacementX displacementY in
    let delta := Vector2.normalize delta in
    let delta := Vector2.scale delta radius in
    delta.

(** The position of the inner joggle before it is moved to its corner
    ([x += ...; y += ...]). *)
Definition innerJoggleCenter (j : Joystick.t) : F32.float * F32.float :=
  let x := Rect.x (Joystick._regionInner j) in
  let y := Rect.y (Joystick._regionInner j) in
  let o := innerJoggleOffset j in
  ((x + Vector2.x o)%f32, (y + Vector2.y o)%f32).

Definition drawOuter (j : Joystick.t) : list Sprite.t :=
  if Joystick._defaultTextureOuterEnabled j then
    let x := Rect.x (Joystick._regionOuter j) in
    let y := Rect.y (Joystick._regionOuter j) in
    let width := Rect.width (Joystick._regionOuter j) in
    let height := Rect.height (Joystick._regionOuter j) in
    let x := (x - (width * F32.half))%f32 in
    let y := (y - (height * F32.half))%f32 in
    [Sprite.mk x y width height (Joystick._defaultTexCoordOuter j)]
  else [].

Definition drawInner (j : Joystick.t) : list Sprite.t :=
  if Joystick._defaultTextureInnerEnabled j then
    let width := Rect.width (Joystick._regionInner j) in
    let height := Rect.height (Joystick._regionInner j) in
    let '(x, y) := innerJoggleCenter j in
    let x := (x - (width * F32.half))%f32 in
    let y := (y - (height * F32.half))%f32 in
    [Sprite.mk x y width height (Joystick._defaultTexCoordInner j)]
  else [].

(** [Gamepad::draw]: the calls of [_spriteBatch->draw] between
    [begin()] and [end()], in order. *)
Definition draw (g : t) : list Sprite.t :=
  (_buttons g ≫= drawButton)
  ++ (_joysticks g ≫= fun j => drawOuter j ++ drawInner j).

(** *** Touch input *)

Section Touch.

(** The macro [MAX_TOUCH_INPUTS], whose definition is not part of the
    sources: the number of touch contacts the platform tracks. *)
Variable MAX_TOUCH_INPUTS : N.

(** [Gamepad::Gamepad(texturePath, joysticks, buttons)], with the
    texture [Texture::create] returned (asserted to be non-null) and
    the storage [memJ i], [memB i] that [new Joystick()] and
    [new Button()] receive for the [i]-th object. *)
Definition new (texture : Texture.t) (joysticks buttons : N)
    (memJ : nat -> Joystick.t) (memB : nat -> Button.t) : t :=
  mk ((fun i => Joystick.new (memJ i)) <$> seq 0 (N.to_nat joysticks))
     ((fun i => Button.new (memB i)) <$> seq 0 (N.to_nat buttons))
     texture
     (replicate (N.to_nat MAX_TOUCH_INPUTS) false).

(** The hit test of a button on [TOUCH_PRESS], as the source writes it:
    [x >= r.x && x <= r.x + r.width && y >= r.y && y <= r.y + r.height]
    with the [int] coordinates converted to [float]. *)
Definition buttonHit (b : Button.t) (x y : Z) : bool :=
  let r := Button._region b in
  (F32.of_int x >=? Rect.x r)%f32
  && (F32.of_int x <=? Rect.x r + Rect.width r)%f32
  && (F32.of_int y >=? Rect.y r)%f32
  && (F32.of_int y <=? Rect.y r + Rect.height r)%f32.

(** The body of the first loop of [Gamepad::touch] for one button. *)
Definition touchButton (x y : Z) (touchEvent : TouchEvent)
    (contactIndex : N) (b : Button.t) : Button.t :=
  match touchEvent with
  | TOUCH_PRESS =>
      if (Button._contactIndex b =? INVALID_CONTACT_INDEX)%N then
        if buttonHit b x y then
          Button.set_contact b contactIndex BUTTON_PRESSED
        else b
      else b
  | TOUCH_RELEASE =>
      if (Button._contactIndex b =? contactIndex)%N then
        Button.set_contact b (to_uint (-1)) BUTTON_RELEASED
      else b
  | _ => b
  end.

(** The activation test of a joystick on [TOUCH_PRESS]: the touch lies
    in the square of half-side [_radius] around [_regionInner]'s
    position. *)
Definition joystickHit (j : Joystick.t) (x y : Z) : bool :=
  let bx := Rect.x (Joystick._regionInner j) in
  let by' := Rect.y (Joystick._regionInner j) in
  let bradius := Joystick._radius j in
  (F32.of_int x >=? bx - bradius)%f32
  && (F32.of_int x <=? bx + bradius)%f32
  && (F32.of_int y >=? by' - bradius)%f32
  && (F32.of_int y <=? by' + bradius)%f32.

(** The block of [case Touch::TOUCH_PRESS] of the second loop. *)
Definition pressJoystick (x y : Z) (contactIndex : N)
    (j : Joystick.t) : Joystick.t :=
  if joystickHit j x y
     && (Joystick._contactIndex j =? INVALID_CONTACT_INDEX)%N
  then Joystick.reset j contactIndex
  else j.

(** The direction the [TOUCH_MOVE] block computes from a displacement
    and the radius. *)
Definition moveDirection (old : Vector2.t)
    (displacementX displacementY radius : F32.float) : Vector2.t :=
  if withinRadius displacementX displacementY radius then
    let d := Vector2.set old displacementX (- displacementY)%f32 in
    Vector2.scale d (F32.one / radius)%f32
  else
    let delta := Vector2.mk displacementX (- displacementY)%f32 in
    let delta := Vector2.normalize delta in
    let delta := Vector2.scale delta radius in
    let delta := Vector2.normalize delta in
    Vector2.set old (Vector2.x delta) (Vector2.y delta).

(** The block of [case Touch::TOUCH_MOVE] of the second loop. *)
Definition moveJoystick (x y : Z) (contactIndex : N)
    (j : Joystick.t) : Joystick.t :=
  if (Joystick._contactIndex j =? contactIndex)%N then
    let displacementX :=
      (F32.of_int x - Rect.x (Joystick._regionInner j))%f32 in
    let displacementY :=
      (F32.of_int y - Rect.y (Joystick._regionInner j))%f32 in
    let radius := Joystick._radius j in
    Joystick.set_vectors j
      (moveDirection (Joystick._direction j)
         displacementX displacementY radius)
      (Vector2.set (Joystick._displacement j)
         displacementX displacementY)
  else j.

(** The body of the second loop of [Gamepad::touch] for one joystick.
    [case Touch::TOUCH_PRESS] has no [break]: control falls through
    into [case Touch::TOUCH_MOVE]. *)
Definition touchJoystick (x y : Z) (touchEvent : TouchEvent)
    (contactIndex : N) (j : Joystick.t) : Joystick.t :=
  match touchEvent with
  | TOUCH_PRESS =>
      moveJoystick x y contactIndex (pressJoystick x y contactIndex j)
  | TOUCH_MOVE => moveJoystick x y contactIndex j
  | TOUCH_RELEASE =>
      if (Joystick._contactIndex j =? contactIndex)%N then
        Joystick.reset j (to_uint (-1))
      else j
  | TOUCH_OTHER _ => j
  end.

(** [Gamepad::touch] *)
Definition touch (g : t) (x y : Z) (touchEvent : TouchEvent)
    (contactIndex : N) : t :=
  if (MAX_TOUCH_INPUTS <=? contactIndex)%N then g
  else
    mk (touchJoystick x y touchEvent contactIndex <$> _joysticks g)
       (touchButton x y touchEvent contactIndex <$> _buttons g)
       (_texture g) (_touches g).

End Touch.

End Gamepad.

(** ** Vocabulary of the properties *)

(** A rectangle contains the point [(x, y)], bounds included:
    [r.x <= x <= r.x + r.width] and [r.y <= y <= r.y + r.height]. *)
Definition Rect_contains (r : Rect.t) (x y : Z) : bool :=
  (Rect.x r <=? F32.of_int x)%f32
  && (F32.of_int x <=? Rect.x r + Rect.width r)%f32
  && (Rect.y r <=? F32.of_int y)%f32
  && (F32.of_int y <=? Rect.y r + Rect.height r)%f32.

(** The point [(x, y)] lies in the box
    [[bx - r, bx + r] x [by - r, by + r]], bounds included. *)
Definition in_box (bx by' r : F32.float) (x y : Z) : bool :=
  (bx - r <=? F32.of_int x)%f32
  && (F32.of_int x <=? bx + r)%f32
  && (by' - r <=? F32.of_int y)%f32
  && (F32.of_int y <=? by' + r)%f32.

(** A coordinate lies in [[0, 1]]; all four coordinates of a texture
    rectangle lie within the texture. *)
Definition in_unit (f : F32.float) : bool :=
  (F32.zero <=? f)%f32 && (f <=? F32.one)%f32.

Definition UVs_in_texture (uv : UVs.t) : bool :=
  in_unit (UVs.u1 uv) && in_unit (UVs.v1 uv)
  && in_unit (UVs.u2 uv) && in_unit (UVs.v2 uv).

(** A radius is positive. *)
Definition positive (r : F32.float) : bool :=
  (F32.zero <=? r)%f32 && negb (r <=? F32.zero)%f32.

(** The displacement of a touch at [(x, y)] from the position of the
    inner region: [(x - regionInner.x, y - regionInner.y)]. *)
Definition displacementOf (j : Joystick.t) (x y : Z) : Vector2.t :=
  Vector2.mk (F32.of_int x - Rect.x (Joystick._regionInner j))%f32
             (F32.of_int y - Rect.y (Joystick._regionInner j))%f32.

(** The direction as the quotients [(dx / r, -dy / r)] within the radius
    and as the unit vector of [(dx, -dy)] beyond it. *)
Definition quotientDirection (d : Vector2.t) (r : F32.float) : Vector2.t :=
  if Gamepad.withinRadius (Vector2.x d) (Vector2.y d) r then
    Vector2.mk (Vector2.x d / r)%f32 (- Vector2.y d / r)%f32
  else
    Vector2.normalize (Vector2.mk (Vector2.x d) (- Vector2.y d)%f32).

(** The direction as [Gamepad::touch] computes it: [(dx, -dy)] scaled by
    the reciprocal [1.0f / r] within the radius; normalised, scaled by the
    radius and normalised again beyond it. *)
Definition scaledDirection (d : Vector2.t) (r : F32.float) : Vector2.t :=
  if Gamepad.withinRadius (Vector2.x d) (Vector2.y d) r then
    Vector2.mk (Vector2.x d * (F32.one / r))%f32
               (- Vector2.y d * (F32.one / r))%f32
  else
    Vector2.normalize
      (Vector2.scale
         (Vector2.normalize (Vector2.mk (Vector2.x d) (- Vector2.y d)%f32))
         r).

(** The magnitude of a vector is at most [bound]. *)
Definition magnitude_le (v : Vector2.t) (bound : F32.float) : bool :=
  (Vector2.length v <=? bound)%f32.

(** A touch event: the arguments of one call of [Gamepad::touch]. *)
Record TouchCall : Type := mkTouch {
  tc_x : Z;
  tc_y : Z;
  tc_event : TouchEvent;
  tc_contact : N
}.

(** A finite sequence of [Gamepad::touch] calls. *)
Definition touches (MAX_TOUCH_INPUTS : N) (g : Gamepad.t)
    (calls : list TouchCall) : Gamepad.t :=
  foldl (fun g c =>
           Gamepad.touch MAX_TOUCH_INPUTS g
             (tc_x c) (tc_y c) (tc_event c) (tc_contact c))
        g calls.





(** The gamepads a program can reach: constructed, then any sequence of
    [setButton], [setJoystick] and [touch] calls. *)
Inductive reachable (MAX_TOUCH_INPUTS : N) : Gamepad.t -> Prop :=
  | reachable_new texture joysticks buttons memJ memB :
      reachable MAX_TOUCH_INPUTS
        (Gamepad.new MAX_TOUCH_INPUTS texture joysticks buttons memJ memB)
  | reachable_setButton g g' buttonId bounds dflt focus :
      reachable MAX_TOUCH_INPUTS g ->
      Gamepad.setButton g buttonId bounds dflt focus = Some g' ->
      reachable MAX_TOUCH_INPUTS g'
  | reachable_setJoystick g g' joystickId inner texInner outer texOuter
      radius :
      reachable MAX_TOUCH_INPUTS g ->
      Gamepad.setJoystick g joystickId inner texInner outer texOuter radius
        = Some g' ->
      reachable MAX_TOUCH_INPUTS g'
  | reachable_touch g x y touchEvent contactIndex :
      reachable MAX_TOUCH_INPUTS g ->
      reachable MAX_TOUCH_INPUTS
        (Gamepad.touch MAX_TOUCH_INPUTS g x y touchEvent contactIndex).

(** What [setButton] configures of a button, and [setJoystick] of a
    joystick: everything but the state the touches drive. *)
Definition Button_config (b : Button.t)
    : Rect.t * UVs.t * UVs.t * bool * bool :=
  (Button._region b, Button._defaultTexCoord b, Button._focusTexCoord b,
   Button._defaultTextureEnabled b, Button._focusTextureEnabled b).

Definition Joystick_config (j : Joystick.t)
    : F32.float * Rect.t * Rect.t * UVs.t * UVs.t * bool * bool :=
  (Joystick._radius j, Joystick._regionInner j, Joystick._regionOuter j,
   Joystick._defaultTexCoordInner j, Joystick._defaultTexCoordOuter j,
   Joystick._defaultTextureInnerEnabled j,
   Joystick._defaultTextureOuterEnabled j).

(** A button is pressed exactly when a contact holds it, and the contact
    that holds it is one [touch] handles. *)
Definition button_consistent (MAX_TOUCH_INPUTS : N) (b : Button.t) : Prop :=
  (Button._pressed b = BUTTON_PRESSED
   <-> Button._contactIndex b <> INVALID_CONTACT_INDEX)
  /\ (Button._contactIndex b <> INVALID_CONTACT_INDEX ->
      (Button._contactIndex b < MAX_TOUCH_INPUTS)%N).

(** A joystick without a contact is at rest, and the contact that holds a
    joystick is one [touch] handles. *)
Definition joystick_consistent (MAX_TOUCH_INPUTS : N) (j : Joystick.t)
    : Prop :=
  (Joystick._contactIndex j = INVALID_CONTACT_INDEX ->
   Joystick._displacement j = Vector2.zero
   /\ Joystick._direction j = Vector2.zero)
  /\ (Joystick._contactIndex j <> INVALID_CONTACT_INDEX ->
      (Joystick._contactIndex j < MAX_TOUCH_INPUTS)%N).

(** One gesture of the contact [c]: a press, moves, a release. *)
Definition gesture (c : N) (press : Z * Z) (moves : list (Z * Z))
    (release : Z * Z) : list TouchCall :=
  mkTouch (fst press) (snd press) TOUCH_PRESS c
  :: ((fun p => mkTouch (fst p) (snd p) TOUCH_MOVE c) <$> moves)
  ++ [mkTouch (fst release) (snd release) TOUCH_RELEASE c].

(** One button, one joystick, through a sequence of touches. *)
Definition touchesButton (calls : list TouchCall) (b : Button.t)
    : Button.t :=
  foldl (fun b c =>
           Gamepad.touchButton (tc_x c) (tc_y c) (tc_event c)
             (tc_contact c) b)
        b calls.

Definition touchesJoystick (calls : list TouchCall) (j : Joystick.t)
    : Joystick.t :=
  foldl (fun j c =>
           Gamepad.touchJoystick (tc_x c) (tc_y c) (tc_event c)
             (tc_contact c) j)
        j calls.

(** A float is a number: neither an infinity nor a NaN. *)
Definition is_number (f : F32.float) : bool :=
  match f with
  | S754_zero _ | S754_finite _ _ _ => true
  | _ => false
  end.

(** A float is a zero, of either sign. *)
Definition is_zero (f : F32.float) : bool :=
  match f with
  | S754_zero _ => true
  | _ => false
  end.

(** The sprite [draw] emits for a rectangle with the given texture
    coordinates, drawn from its corner. *)
Definition sprite_at (r : Rect.t) (uv : UVs.t) : Sprite.t :=
  Sprite.mk (Rect.x r) (Rect.y r) (Rect.width r) (Rect.height r) uv.

(** The sprite [draw] emits for a joggle centred at [(cx, cy)]. *)
Definition sprite_centred (cx cy : F32.float) (r : Rect.t) (uv : UVs.t)
    : Sprite.t :=
  Sprite.mk (cx - Rect.width r * F32.half)%f32
            (cy - Rect.height r * F32.half)%f32
            (Rect.width r) (Rect.height r) uv.

(** A button shows: it is pressed with a focus texture, or it has a
    default texture. *)
Definition button_shows (b : Button.t) : bool :=
  match Button._pressed b with
  | BUTTON_PRESSED => Button._focusTextureEnabled b
  | BUTTON_RELEASED => false
  end
  || Button._defaultTextureEnabled b.

(** ** A sample gamepad *)

Module Demo.

Definition rect (x y w h : Z) : Rect.t :=
  Rect.mk (F32.of_int x) (F32.of_int y) (F32.of_int w) (F32.of_int h).

Definition MAX_TOUCH_INPUTS : N := 10.

Definition texture : Texture.t :=
  Texture.mk (F32.of_int 256) (F32.of_int 256).

Definition noUVs : UVs.t := UVs.mk F32.zero F32.zero F32.zero F32.zero.

Definition memB : Button.t :=
  Button.mk BUTTON_PRESSED true true 7 (rect 1 2 3 4) noUVs noUVs.

Definition memJ : Joystick.t :=
  Joystick.mk (Vector2.mk F32.one F32.one) (Vector2.mk F32.one F32.one)
    F32.one true true 7 (rect 1 2 3 4) (rect 1 2 3 4) noUVs noUVs.

(** One joystick and two buttons, as constructed. *)
Definition fresh : Gamepad.t :=
  Gamepad.new MAX_TOUCH_INPUTS texture 1 2 (fun _ => memJ) (fun _ => memB).

(** Button 0 at [(10, 10)], button 1 at [(60, 10)], both 40 by 40; the
    joystick around [(200, 200)] with radius 50. *)
Definition step1 : Gamepad.t :=
  default fresh
    (Gamepad.setButton fresh 0
       (Some (rect 10 10 40 40)) (Some (rect 0 0 64 64))
       (Some (rect 64 0 64 64))).

Definition step2 : Gamepad.t :=
  default step1
    (Gamepad.setButton step1 1
       (Some (rect 60 10 40 40)) (Some (rect 0 64 64 64)) None).

Definition pad : Gamepad.t :=
  default step2
    (Gamepad.setJoystick step2 0
       (Some (rect 200 200 32 32)) (Some (rect 128 0 32 32))
       (Some (rect 200 200 128 128)) (Some (rect 128 128 128 128))
       (F32.of_int 50)).

(** A gamepad whose joystick lies at the origin, with the given
    radius. *)
Definition originPad (radius : F32.float) : Gamepad.t :=
  default fresh
    (Gamepad.setJoystick fresh 0 (Some (rect 0 0 32 32))
       (Some (rect 128 0 32 32)) None None radius).

(** Contact 0 holds button 0 and contact 1 holds the joystick. *)
Definition held : Gamepad.t :=
  touches MAX_TOUCH_INPUTS pad
    [mkTouch 20 20 TOUCH_PRESS 0; mkTouch 210 190 TOUCH_PRESS 1].

End Demo.

(** ** Comparison of floats *)

Lemma SFcompare_swap (a b : spec_float) :
  SFcompare b a = CompOpp <$> SFcompare a b.
Proof.
  destruct a as [sa|sa| |sa ma ea], b as [sb|sb| |sb mb eb]; simpl;
    try reflexivity;
    try (destruct sa; reflexivity);
    try (destruct sb; reflexivity);
    try (destruct sa, sb; reflexivity).
  change (Pcompare ?p ?q Eq) with (Pos.compare p q).
  destruct sa, sb; simpl; try reflexivity;
    rewrite (Z.compare_antisym ea eb);
    destruct (ea ?= eb)%Z; simpl; try reflexivity;
    rewrite (Pos.compare_antisym ma mb);
    destruct (ma ?= mb)%positive; reflexivity.
Qed.

(** C's [a >= b] is [b <= a]. *)
Lemma F32_ge_le (a b : F32.float) : F32.ge a b = F32.le b a.
Proof.
  unfold F32.ge, F32.le. rewrite (SFcompare_swap a b).
  destruct (SFcompare a b) as [[]|]; reflexivity.
Qed.

Lemma buttonHit_contains (b : Button.t) (x y : Z) :
  Gamepad.buttonHit b x y = Rect_contains (Button._region b) x y.
Proof.
  unfold Gamepad.buttonHit, Rect_contains. now rewrite !F32_ge_le.
Qed.

Lemma joystickHit_in_box (j : Joystick.t) (x y : Z) :
  Gamepad.joystickHit j x y
  = in_box (Rect.x (Joystick._regionInner j))
           (Rect.y (Joystick._regionInner j)) (Joystick._radius j) x y.
Proof.
  unfold Gamepad.joystickHit, in_box. now rewrite !F32_ge_le.
Qed.

Lemma INVALID_CONTACT_INDEX_eq : INVALID_CONTACT_INDEX = UINT_MAX.
Proof. reflexivity. Qed.

Lemma moveDirection_scaled (old : Vector2.t) (dX dY r : F32.float) :
  Gamepad.moveDirection old dX dY r = scaledDirection (Vector2.mk dX dY) r.
Proof.
  unfold Gamepad.moveDirection, scaledDirection.
  cbn [Vector2.x Vector2.y].
  destruct (Gamepad.withinRadius dX dY r); [reflexivity|].
  unfold Vector2.set.
  generalize (Vector2.normalize
                (Vector2.scale
                   (Vector2.normalize (Vector2.mk dX (- dY)%f32)) r)).
  intros []. reflexivity.
Qed.

(** ** What one call of [touch] does to each button and joystick *)

Section TouchFacts.

Variable MAX_TOUCH_INPUTS : N.

Lemma touch_handled g x y ev c :
  (c < MAX_TOUCH_INPUTS)%N ->
  Gamepad.touch MAX_TOUCH_INPUTS g x y ev c
  = Gamepad.mk (Gamepad.touchJoystick x y ev c <$> Gamepad._joysticks g)
               (Gamepad.touchButton x y ev c <$> Gamepad._buttons g)
               (Gamepad._texture g) (Gamepad._touches g).
Proof.
  intros Hc. unfold Gamepad.touch.
  destruct (N.leb_spec MAX_TOUCH_INPUTS c); [lia | reflexivity].
Qed.

Lemma touch_ignored g x y ev c :
  (MAX_TOUCH_INPUTS <= c)%N ->
  Gamepad.touch MAX_TOUCH_INPUTS g x y ev c = g.
Proof.
  intros Hc. unfold Gamepad.touch.
  destruct (N.leb_spec MAX_TOUCH_INPUTS c); [reflexivity | lia].
Qed.

Lemma touch_button g x y ev c (i : nat) :
  (c < MAX_TOUCH_INPUTS)%N ->
  Gamepad._buttons (Gamepad.touch MAX_TOUCH_INPUTS g x y ev c) !! i
  = Gamepad.touchButton x y ev c <$> Gamepad._buttons g !! i.
Proof.
  intros Hc. rewrite touch_handled by assumption. simpl.
  apply list_lookup_fmap.
Qed.

Lemma touch_joystick g x y ev c (i : nat) :
  (c < MAX_TOUCH_INPUTS)%N ->
  Gamepad._joysticks (Gamepad.touch MAX_TOUCH_INPUTS g x y ev c) !! i
  = Gamepad.touchJoystick x y ev c <$> Gamepad._joysticks g !! i.
Proof.
  intros Hc. rewrite touch_handled by assumption. simpl.
  apply list_lookup_fmap.
Qed.

Lemma touch_button_at g x y ev c (i : nat) b :
  (c < MAX_TOUCH_INPUTS)%N ->
  Gamepad._buttons g !! i = Some b ->
  Gamepad._buttons (Gamepad.touch MAX_TOUCH_INPUTS g x y ev c) !! i
  = Some (Gamepad.touchButton x y ev c b).
Proof. intros Hc Hb. rewrite touch_button by assumption. now rewrite Hb. Qed.

Lemma touch_joystick_at g x y ev c (i : nat) j :
  (c < MAX_TOUCH_INPUTS)%N ->
  Gamepad._joysticks g !! i = Some j ->
  Gamepad._joysticks (Gamepad.touch MAX_TOUCH_INPUTS g x y ev c) !! i
  = Some (Gamepad.touchJoystick x y ev c j).
Proof. intros Hc Hj. rewrite touch_joystick by assumption. now rewrite Hj. Qed.

Lemma touch_buttonCount g x y ev c :
  Gamepad._buttonCount (Gamepad.touch MAX_TOUCH_INPUTS g x y ev c)
  = Gamepad._buttonCount g.
Proof.
  unfold Gamepad.touch, Gamepad._buttonCount.
  destruct (MAX_TOUCH_INPUTS <=? c)%N; simpl; [reflexivity|].
  now rewrite length_fmap.
Qed.

Lemma touch_joystickCount g x y ev c :
  Gamepad._joystickCount (Gamepad.touch MAX_TOUCH_INPUTS g x y ev c)
  = Gamepad._joystickCount g.
Proof.
  unfold Gamepad.touch, Gamepad._joystickCount.
  destruct (MAX_TOUCH_INPUTS <=? c)%N; simpl; [reflexivity|].
  now rewrite length_fmap.
Qed.

End TouchFacts.

(** A getter on an index that holds an object passes its assertion. *)
Lemma getButtonState_lookup g (i : nat) b :
  Gamepad._buttons g !! i = Some b ->
  Gamepad.getButtonState g (N.of_nat i) = Some (Button._pressed b).
Proof.
  intros Hb. unfold Gamepad.getButtonState, Gamepad._buttonCount.
  pose proof (lookup_lt_Some _ _ _ Hb) as Hlt.
  destruct (N.ltb_spec (N.of_nat i) (N.of_nat (length (Gamepad._buttons g))));
    [|lia].
  now rewrite Nat2N.id, Hb.
Qed.

Lemma isJoystickActive_lookup g (i : nat) j :
  Gamepad._joysticks g !! i = Some j ->
  Gamepad.isJoystickActive g (N.of_nat i)
  = Some (negb (Joystick._contactIndex j =? INVALID_CONTACT_INDEX)%N).
Proof.
  intros Hj. unfold Gamepad.isJoystickActive, Gamepad._joystickCount.
  pose proof (lookup_lt_Some _ _ _ Hj) as Hlt.
  destruct (N.ltb_spec (N.of_nat i)
              (N.of_nat (length (Gamepad._joysticks g)))); [|lia].
  now rewrite Nat2N.id, Hj.
Qed.

Lemma getJoystickState_lookup g (i : nat) j :
  Gamepad._joysticks g !! i = Some j ->
  Gamepad.getJoystickState g (N.of_nat i) = Some (Joystick._direction j).
Proof.
  intros Hj. unfold Gamepad.getJoystickState, Gamepad._joystickCount.
  pose proof (lookup_lt_Some _ _ _ Hj) as Hlt.
  destruct (N.ltb_spec (N.of_nat i)
              (N.of_nat (length (Gamepad._joysticks g)))); [|lia].
  now rewrite Nat2N.id, Hj.
Qed.

(** ** Buttons *)

(** C10. A touch event whose contact index is at least
    [MAX_TOUCH_INPUTS] leaves the whole gamepad as it was, whatever the
    event and the coordinates. *)
Theorem touch_contact_out_of_range (MAX_TOUCH_INPUTS : N) (g : Gamepad.t)
    (x y : Z) (touchEvent : TouchEvent) (contactIndex : N) :
  (MAX_TOUCH_INPUTS <= contactIndex)%N ->
  Gamepad.touch MAX_TOUCH_INPUTS g x y touchEvent contactIndex = g.
Proof. apply touch_ignored. Qed.

Lemma touch_contact_out_of_range_witness :
  (Demo.MAX_TOUCH_INPUTS <= 10)%N
  /\ Gamepad.touch Demo.MAX_TOUCH_INPUTS Demo.pad 20 20 TOUCH_PRESS 10
     = Demo.pad.
Proof.
  split; [vm_compute; discriminate|].
  apply (touch_contact_out_of_range Demo.MAX_TOUCH_INPUTS Demo.pad 20 20
           TOUCH_PRESS 10).
  vm_compute; discriminate.
Defined.

(** C1. On [TOUCH_PRESS] at [(x, y)] with a contact index [c] below
    [MAX_TOUCH_INPUTS], a button without a contact whose region contains
    the point becomes [BUTTON_PRESSED] with the bound contact [c], all its
    other members as they were, and [getButtonState] then reports
    [BUTTON_PRESSED]; a button whose region does not contain the point, or
    that is bound already, stays as it is. *)
Theorem touch_press_buttons (MAX_TOUCH_INPUTS : N) (g : Gamepad.t)
    (x y : Z) (c : N) (i : nat) (b : Button.t) :
  (c < MAX_TOUCH_INPUTS)%N ->
  Gamepad._buttons g !! i = Some b ->
  let g' := Gamepad.touch MAX_TOUCH_INPUTS g x y TOUCH_PRESS c in
  (Button._contactIndex b = INVALID_CONTACT_INDEX ->
   Rect_contains (Button._region b) x y = true ->
   Gamepad._buttons g' !! i
   = Some (Button.mk BUTTON_PRESSED
             (Button._defaultTextureEnabled b)
             (Button._focusTextureEnabled b)
             c
             (Button._region b)
             (Button._defaultTexCoord b) (Button._focusTexCoord b))
   /\ Gamepad.getButtonState g' (N.of_nat i) = Some BUTTON_PRESSED)
  /\ (Button._contactIndex b <> INVALID_CONTACT_INDEX
      \/ Rect_contains (Button._region b) x y = false ->
      Gamepad._buttons g' !! i = Some b).
Proof.
  intros Hc Hb g'.
  pose proof (touch_button_at MAX_TOUCH_INPUTS g x y TOUCH_PRESS c i b Hc Hb)
    as Hb'.
  fold g' in Hb'.
  cbn [Gamepad.touchButton] in Hb'. rewrite buttonHit_contains in Hb'.
  split.
  - intros Hfree Hin. rewrite Hfree, N.eqb_refl, Hin in Hb'.
    split; [assumption|].
    now rewrite (getButtonState_lookup _ _ _ Hb').
  - intros [Hbound | Hout].
    + apply N.eqb_neq in Hbound. now rewrite Hbound in Hb'.
    + rewrite Hout in Hb'.
      now destruct (Button._contactIndex b =? INVALID_CONTACT_INDEX)%N.
Qed.

Lemma touch_press_buttons_witness :
  let g' := Gamepad.touch Demo.MAX_TOUCH_INPUTS Demo.pad 20 20 TOUCH_PRESS 3
  in
  (3 < Demo.MAX_TOUCH_INPUTS)%N
  /\ Gamepad.getButtonState Demo.pad 0 = Some BUTTON_RELEASED
  /\ Gamepad._buttons g' !! 0%nat
     = Some (Button.mk BUTTON_PRESSED true true 3 (Demo.rect 10 10 40 40)
               (Gamepad.texCoord Demo.texture (Demo.rect 0 0 64 64))
               (Gamepad.texCoord Demo.texture (Demo.rect 64 0 64 64)))
  /\ Gamepad.getButtonState g' 0 = Some BUTTON_PRESSED
  /\ Gamepad._buttons g' !! 1%nat = Gamepad._buttons Demo.pad !! 1%nat.
Proof.
  cbv zeta.
  destruct (touch_press_buttons Demo.MAX_TOUCH_INPUTS Demo.pad 20 20 3 0 _
              eq_refl eq_refl) as [Hhit _].
  destruct (Hhit eq_refl ltac:(vm_compute; reflexivity)) as [Hstored Hstate].
  destruct (touch_press_buttons Demo.MAX_TOUCH_INPUTS Demo.pad 20 20 3 1 _
              eq_refl eq_refl) as [_ Hmiss].
  split; [reflexivity|]. split; [reflexivity|].
  split; [exact Hstored|]. split; [exact Hstate|].
  apply Hmiss. right. vm_compute; reflexivity.
Defined.

(** C5. On [TOUCH_RELEASE] with a contact index [c] below
    [MAX_TOUCH_INPUTS], every button bound to [c] becomes
    [BUTTON_RELEASED] without a contact, every joystick bound to [c]
    becomes inactive with zero displacement and direction; buttons and
    joysticks bound otherwise are unchanged, and so are all regions,
    texture coordinates, radii and the texture. *)
Theorem touch_release_frame (MAX_TOUCH_INPUTS : N) (g : Gamepad.t)
    (x y : Z) (c : N) :
  (c < MAX_TOUCH_INPUTS)%N ->
  let g' := Gamepad.touch MAX_TOUCH_INPUTS g x y TOUCH_RELEASE c in
  (forall (i : nat) (b : Button.t),
      Gamepad._buttons g !! i = Some b ->
      Gamepad._buttons g' !! i
      = Some (if (Button._contactIndex b =? c)%N then
                Button.mk BUTTON_RELEASED
                  (Button._defaultTextureEnabled b)
                  (Button._focusTextureEnabled b)
                  INVALID_CONTACT_INDEX
                  (Button._region b)
                  (Button._defaultTexCoord b) (Button._focusTexCoord b)
              else b))
  /\ (forall (i : nat) (j : Joystick.t),
         Gamepad._joysticks g !! i = Some j ->
         Gamepad._joysticks g' !! i
         = Some (if (Joystick._contactIndex j =? c)%N then
                   Joystick.mk Vector2.zero Vector2.zero
                     (Joystick._radius j)
                     (Joystick._defaultTextureInnerEnabled j)
                     (Joystick._defaultTextureOuterEnabled j)
                     INVALID_CONTACT_INDEX
                     (Joystick._regionInner j) (Joystick._regionOuter j)
                     (Joystick._defaultTexCoordInner j)
                     (Joystick._defaultTexCoordOuter j)
                 else j)
         /\ Gamepad.isJoystickActive g' (N.of_nat i)
            = Some (negb (Joystick._contactIndex j =? c)%N
                    && negb (Joystick._contactIndex j
                             =? INVALID_CONTACT_INDEX)%N))
  /\ Gamepad._buttonCount g' = Gamepad._buttonCount g
  /\ Gamepad._joystickCount g' = Gamepad._joystickCount g
  /\ Gamepad._texture g' = Gamepad._texture g
  /\ Gamepad._touches g' = Gamepad._touches g.
Proof.
  intros Hc g'. subst g'.
  split; [|split; [intros i j Hj0; split; revert i j Hj0|repeat split]].
  - intros i b Hb. rewrite (touch_button_at _ _ _ _ _ _ _ _ Hc Hb).
    cbn [Gamepad.touchButton].
    now destruct (Button._contactIndex b =? c)%N.
  - intros i j Hj. rewrite (touch_joystick_at _ _ _ _ _ _ _ _ Hc Hj).
    cbn [Gamepad.touchJoystick].
    now destruct (Joystick._contactIndex j =? c)%N.
  - intros i j Hj0.
    pose proof (touch_joystick_at MAX_TOUCH_INPUTS g x y TOUCH_RELEASE c i j
                  Hc Hj0) as Hj.
    rewrite (isJoystickActive_lookup _ _ _ Hj).
    cbn [Gamepad.touchJoystick].
    destruct (Joystick._contactIndex j =? c)%N; reflexivity.
  - apply touch_buttonCount.
  - apply touch_joystickCount.
  - now rewrite touch_handled.
  - now rewrite touch_handled.
Qed.

Lemma touch_release_frame_witness :
  let g' := Gamepad.touch Demo.MAX_TOUCH_INPUTS Demo.held 0 0 TOUCH_RELEASE 0
  in
  (0 < Demo.MAX_TOUCH_INPUTS)%N
  /\ Gamepad._buttons Demo.held !! 0%nat
     <> Gamepad._buttons Demo.pad !! 0%nat
  /\ Gamepad._buttons g' !! 0%nat = Gamepad._buttons Demo.pad !! 0%nat
  /\ Gamepad._joysticks g' !! 0%nat = Gamepad._joysticks Demo.held !! 0%nat.
Proof.
  pose proof (touch_release_frame Demo.MAX_TOUCH_INPUTS Demo.held 0 0 0
                eq_refl) as (Hb & Hj & _).
  split; [reflexivity|]. split; [vm_compute; discriminate|]. split.
  - rewrite (Hb 0%nat _ eq_refl). vm_compute; reflexivity.
  - rewrite (proj1 (Hj 0%nat _ eq_refl)). vm_compute; reflexivity.
Defined.

(** ** Joysticks: activation *)

Lemma moveJoystick_contactIndex x y c j :
  Joystick._contactIndex (Gamepad.moveJoystick x y c j)
  = Joystick._contactIndex j.
Proof.
  unfold Gamepad.moveJoystick.
  now destruct (Joystick._contactIndex j =? c)%N.
Qed.

Lemma pressJoystick_free x y c j :
  Joystick._contactIndex j = INVALID_CONTACT_INDEX ->
  Gamepad.pressJoystick x y c j
  = if Gamepad.joystickHit j x y then Joystick.reset j c else j.
Proof.
  intros Hfree. unfold Gamepad.pressJoystick.
  rewrite Hfree, N.eqb_refl. now rewrite andb_true_r.
Qed.

Lemma contact_below_MAX_valid (MAX_TOUCH_INPUTS c : N) :
  (MAX_TOUCH_INPUTS <= UINT_MAX)%N ->
  (c < MAX_TOUCH_INPUTS)%N ->
  c <> INVALID_CONTACT_INDEX.
Proof. rewrite INVALID_CONTACT_INDEX_eq. lia. Qed.

(** C6. A [TOUCH_PRESS] at [(x, y)] with a contact index below
    [MAX_TOUCH_INPUTS] binds a joystick that has no contact if and only if
    the point lies in the box [[bx - r, bx + r] x [by - r, by + r]] around
    the position [(bx, by)] of the inner region, [r] the radius, all four
    bounds included. *)
Theorem touch_press_binds_joystick (MAX_TOUCH_INPUTS : N) (g : Gamepad.t)
    (x y : Z) (c : N) (i : nat) (j : Joystick.t) :
  (MAX_TOUCH_INPUTS <= UINT_MAX)%N ->
  (c < MAX_TOUCH_INPUTS)%N ->
  Gamepad._joysticks g !! i = Some j ->
  Joystick._contactIndex j = INVALID_CONTACT_INDEX ->
  let g' := Gamepad.touch MAX_TOUCH_INPUTS g x y TOUCH_PRESS c in
  let inside :=
    in_box (Rect.x (Joystick._regionInner j))
           (Rect.y (Joystick._regionInner j)) (Joystick._radius j) x y in
  (Joystick._contactIndex <$> Gamepad._joysticks g' !! i = Some c
   <-> inside = true)
  /\ (Gamepad.isJoystickActive g' (N.of_nat i) = Some true
      <-> inside = true).
Proof.
  intros Hmax Hc Hj Hfree g' inside.
  pose proof (contact_below_MAX_valid _ _ Hmax Hc) as Hvalid.
  pose proof (touch_joystick_at MAX_TOUCH_INPUTS g x y TOUCH_PRESS c i j Hc Hj)
    as Hj'.
  fold g' in Hj'.
  rewrite (isJoystickActive_lookup _ _ _ Hj'), Hj'.
  cbn [fmap option_fmap option_map Gamepad.touchJoystick].
  rewrite moveJoystick_contactIndex, pressJoystick_free by assumption.
  rewrite joystickHit_in_box. fold inside.
  destruct inside; cbn [Joystick.reset Joystick._contactIndex].
  - apply N.eqb_neq in Hvalid. rewrite Hvalid. now split.
  - rewrite Hfree, N.eqb_refl. split; split; intros H; try discriminate H.
    injection H as H. now symmetry in H.
Qed.

Lemma touch_press_binds_joystick_witness :
  (Demo.MAX_TOUCH_INPUTS <= UINT_MAX)%N
  /\ (1 < Demo.MAX_TOUCH_INPUTS)%N
  /\ Gamepad.isJoystickActive Demo.pad 0 = Some false
  /\ Gamepad.isJoystickActive
       (Gamepad.touch Demo.MAX_TOUCH_INPUTS Demo.pad 250 150 TOUCH_PRESS 1) 0
     = Some true
  /\ Gamepad.isJoystickActive
       (Gamepad.touch Demo.MAX_TOUCH_INPUTS Demo.pad 251 150 TOUCH_PRESS 1) 0
     <> Some true.
Proof.
  assert (Hmax : (Demo.MAX_TOUCH_INPUTS <= UINT_MAX)%N)
    by (vm_compute; discriminate).
  split; [exact Hmax|]. split; [reflexivity|]. split; [reflexivity|]. split.
  - apply (proj2 (touch_press_binds_joystick Demo.MAX_TOUCH_INPUTS Demo.pad
                    250 150 1 0 _ Hmax eq_refl eq_refl eq_refl)).
    vm_compute; reflexivity.
  - intros H.
    apply (proj2 (touch_press_binds_joystick Demo.MAX_TOUCH_INPUTS Demo.pad
                    251 150 1 0 _ Hmax eq_refl eq_refl eq_refl)) in H.
    vm_compute in H. discriminate H.
Defined.

(** C8. [case TOUCH_PRESS] of the joystick loop falls through into
    [case TOUCH_MOVE]: a press that activates a joystick leaves it, at the
    end of the same call, with the displacement
    [(x - regionInner.x, y - regionInner.y)] and with the direction the
    move computes from that displacement, not with the zero vectors the
    press block assigned. *)
Theorem touch_press_falls_through (MAX_TOUCH_INPUTS : N) (g : Gamepad.t)
    (x y : Z) (c : N) (i : nat) (j : Joystick.t) :
  (c < MAX_TOUCH_INPUTS)%N ->
  Gamepad._joysticks g !! i = Some j ->
  Joystick._contactIndex j = INVALID_CONTACT_INDEX ->
  in_box (Rect.x (Joystick._regionInner j))
         (Rect.y (Joystick._regionInner j)) (Joystick._radius j) x y
  = true ->
  let g' := Gamepad.touch MAX_TOUCH_INPUTS g x y TOUCH_PRESS c in
  Gamepad._joysticks g' !! i
  = Some (Joystick.mk
            (displacementOf j x y)
            (scaledDirection (displacementOf j x y) (Joystick._radius j))
            (Joystick._radius j)
            (Joystick._defaultTextureInnerEnabled j)
            (Joystick._defaultTextureOuterEnabled j)
            c
            (Joystick._regionInner j) (Joystick._regionOuter j)
            (Joystick._defaultTexCoordInner j)
            (Joystick._defaultTexCoordOuter j))
  /\ Gamepad.getJoystickState g' (N.of_nat i)
     = Some (scaledDirection (displacementOf j x y) (Joystick._radius j)).
Proof.
  intros Hc Hj Hfree Hin g'.
  pose proof (touch_joystick_at MAX_TOUCH_INPUTS g x y TOUCH_PRESS c i j Hc Hj)
    as Hj'.
  fold g' in Hj'.
  rewrite (getJoystickState_lookup _ _ _ Hj'), Hj'.
  cbn [Gamepad.touchJoystick].
  rewrite pressJoystick_free, joystickHit_in_box, Hin by assumption.
  unfold Gamepad.moveJoystick.
  cbn [Joystick.reset Joystick._contactIndex Joystick._regionInner
       Joystick._radius Joystick._direction Joystick._displacement].
  rewrite N.eqb_refl, moveDirection_scaled.
  split; reflexivity.
Qed.

Lemma touch_press_falls_through_witness :
  let g' := Gamepad.touch Demo.MAX_TOUCH_INPUTS Demo.pad 210 190 TOUCH_PRESS 1
  in
  (1 < Demo.MAX_TOUCH_INPUTS)%N
  /\ Gamepad.getJoystickState Demo.pad 0 = Some Vector2.zero
  /\ Gamepad.getJoystickState g' 0
     = Some (Vector2.mk (F32.of_int 10 * (F32.one / F32.of_int 50))%f32
                        (F32.of_int 10 * (F32.one / F32.of_int 50))%f32)
  /\ Gamepad.getJoystickState g' 0 <> Some Vector2.zero.
Proof.
  pose proof (touch_press_falls_through Demo.MAX_TOUCH_INPUTS Demo.pad
                210 190 1 0 _ eq_refl eq_refl eq_refl) as H.
  specialize (H ltac:(vm_compute; reflexivity)).
  destruct H as [_ H].
  split; [reflexivity|]. split; [reflexivity|]. split.
  - etransitivity; [exact H|]. vm_compute; reflexivity.
  - intros H0. change (N.of_nat 0) with 0%N in H.
    rewrite H0 in H. vm_compute in H. discriminate H.
Defined.

(** ** Index assertions *)

Lemma index_in_range {A} (l : list A) (index : N) :
  (index < N.of_nat (length l))%N -> is_Some (l !! N.to_nat index).
Proof. intros H. apply lookup_lt_is_Some. lia. Qed.

(** C7. [getButtonState], [getJoystickState], [isJoystickActive],
    [setButton] and [setJoystick] assert that the index is strictly below
    [_buttonCount], respectively [_joystickCount]: they fail exactly on the
    other indices. On an index in range each getter returns the value
    stored for that index. *)
Theorem index_assertions (g : Gamepad.t) (index : N)
    (bounds dflt focus inner texInner outer texOuter : option Rect.t)
    (radius : F32.float) :
  ((index < Gamepad._buttonCount g)%N ->
   exists b, Gamepad._buttons g !! N.to_nat index = Some b
     /\ Gamepad.getButtonState g index = Some (Button._pressed b)
     /\ is_Some (Gamepad.setButton g index bounds dflt focus))
  /\ ((index < Gamepad._joystickCount g)%N ->
      exists j, Gamepad._joysticks g !! N.to_nat index = Some j
        /\ Gamepad.getJoystickState g index = Some (Joystick._direction j)
        /\ Gamepad.isJoystickActive g index
           = Some (negb (Joystick._contactIndex j
                         =? INVALID_CONTACT_INDEX)%N)
        /\ is_Some (Gamepad.setJoystick g index inner texInner outer
                      texOuter radius))
  /\ ((Gamepad._buttonCount g <= index)%N ->
      Gamepad.getButtonState g index = None
      /\ Gamepad.setButton g index bounds dflt focus = None)
  /\ ((Gamepad._joystickCount g <= index)%N ->
      Gamepad.getJoystickState g index = None
      /\ Gamepad.isJoystickActive g index = None
      /\ Gamepad.setJoystick g index inner texInner outer texOuter radius
         = None).
Proof.
  unfold Gamepad.getButtonState, Gamepad.setButton, Gamepad.getJoystickState,
    Gamepad.isJoystickActive, Gamepad.setJoystick.
  split; [|split; [|split; [intros Hge; split; revert Hge
                           |intros Hge; repeat split; revert Hge]]].
  - intros Hlt. destruct (index_in_range _ _ Hlt) as [b Hb].
    apply N.ltb_lt in Hlt. rewrite Hlt, Hb. exists b.
    repeat split; cbn [mbind option_bind]; eauto.
  - intros Hlt. destruct (index_in_range _ _ Hlt) as [j Hj].
    apply N.ltb_lt in Hlt. rewrite Hlt, Hj. exists j.
    repeat split; cbn [mbind option_bind]; eauto.
  - intros Hge; apply N.ltb_ge in Hge; now rewrite Hge.
  - intros Hge; apply N.ltb_ge in Hge; now rewrite Hge.
  - intros Hge; apply N.ltb_ge in Hge; now rewrite Hge.
  - intros Hge; apply N.ltb_ge in Hge; now rewrite Hge.
  - intros Hge; apply N.ltb_ge in Hge; now rewrite Hge.
Qed.

Lemma index_assertions_witness :
  (1 < Gamepad._buttonCount Demo.held)%N
  /\ (0 < Gamepad._joystickCount Demo.held)%N
  /\ Gamepad.getButtonState Demo.held 0 = Some BUTTON_PRESSED
  /\ Gamepad.getButtonState Demo.held 1 = Some BUTTON_RELEASED
  /\ Gamepad.getButtonState Demo.held 2 = None
  /\ Gamepad.isJoystickActive Demo.held 0 = Some true
  /\ Gamepad.isJoystickActive Demo.held 1 = None.
Proof.
  pose proof (index_assertions Demo.held 0 None None None None None None
                None F32.one) as (Hb0 & Hj0 & _).
  pose proof (index_assertions Demo.held 1 None None None None None None
                None F32.one) as (Hb1 & _ & _ & Hj1).
  pose proof (index_assertions Demo.held 2 None None None None None None
                None F32.one) as (_ & _ & Hb2 & _).
  destruct (Hb0 eq_refl) as (b0 & Hl0 & Hs0 & _).
  destruct (Hb1 eq_refl) as (b1 & Hl1 & Hs1 & _).
  destruct (Hj0 eq_refl) as (j0 & Hm0 & _ & Ha0 & _).
  vm_compute in Hl0, Hl1, Hm0.
  injection Hl0 as <-. injection Hl1 as <-. injection Hm0 as <-.
  split; [reflexivity|]. split; [reflexivity|].
  split; [exact Hs0|]. split; [exact Hs1|].
  split; [apply Hb2; vm_compute; discriminate|].
  split; [exact Ha0|].
  apply Hj1; vm_compute; discriminate.
Defined.

(** ** Joysticks: movement *)

(** What the move block makes of a joystick bound to the contact. *)
Lemma moveJoystick_bound x y c j :
  Joystick._contactIndex j = c ->
  Gamepad.moveJoystick x y c j
  = Joystick.mk
      (displacementOf j x y)
      (scaledDirection (displacementOf j x y) (Joystick._radius j))
      (Joystick._radius j)
      (Joystick._defaultTextureInnerEnabled j)
      (Joystick._defaultTextureOuterEnabled j)
      c
      (Joystick._regionInner j) (Joystick._regionOuter j)
      (Joystick._defaultTexCoordInner j)
      (Joystick._defaultTexCoordOuter j).
Proof.
  intros Hc. unfold Gamepad.moveJoystick.
  rewrite Hc, N.eqb_refl, moveDirection_scaled.
  unfold Joystick.set_vectors. now rewrite Hc.
Qed.

(** C2, as stated, fails: a joystick of radius 6 at the origin, bound to
    contact 0, is moved to [(5, 0)], within the radius. The direction is
    [5 * (1.0f / 6)], which is not the quotient [5.0f / 6]. *)
Lemma touch_move_direction_not_quotient :
  let g :=
    Gamepad.touch Demo.MAX_TOUCH_INPUTS (Demo.originPad (F32.of_int 6))
      0 0 TOUCH_PRESS 0 in
  let g' := Gamepad.touch Demo.MAX_TOUCH_INPUTS g 5 0 TOUCH_MOVE 0 in
  (fun j => (Joystick._contactIndex j, positive (Joystick._radius j),
             Gamepad.withinRadius (F32.of_int 5) (F32.of_int 0)
               (Joystick._radius j)))
    <$> Gamepad._joysticks g !! 0%nat
  = Some (0%N, true, true)
  /\ Gamepad.getJoystickState g' 0
     = Some (Vector2.mk (S754_finite false 13981014 (-24))
                        (S754_zero true))
  /\ (fun j => quotientDirection (displacementOf j 5 0)
                 (Joystick._radius j))
       <$> Gamepad._joysticks g !! 0%nat
     = Some (Vector2.mk (S754_finite false 13981013 (-24))
                        (S754_zero true))
  /\ Gamepad.getJoystickState g' 0
     <> (fun j => quotientDirection (displacementOf j 5 0)
                    (Joystick._radius j))
          <$> Gamepad._joysticks g !! 0%nat.
Proof.
  cbv zeta. repeat split; try (vm_compute; reflexivity).
  vm_compute. discriminate.
Qed.

(** The two differ by more than a rounding when the reciprocal overflows:
    a joystick of radius [2^-149] at [x = -2^-149], pressed at [(0, 0)],
    has [dx = 2^-149], within the radius; the quotient [dx / r] is 1, the
    direction computed is [(dx * inf, -0 * inf)]. *)
Lemma touch_press_direction_infinite :
  let tiny := F32.min_subnormal in
  let g0 :=
    default Demo.fresh
      (Gamepad.setJoystick Demo.fresh 0
         (Some (Rect.mk (- tiny)%f32 F32.zero (F32.of_int 32)
                        (F32.of_int 32)))
         None None None tiny) in
  let g := Gamepad.touch Demo.MAX_TOUCH_INPUTS g0 0 0 TOUCH_PRESS 0 in
  Joystick._displacement <$> Gamepad._joysticks g !! 0%nat
  = Some (Vector2.mk tiny F32.zero)
  /\ Gamepad.withinRadius tiny F32.zero tiny = true
  /\ (tiny / tiny)%f32 = F32.one
  /\ Gamepad.getJoystickState g 0
     = Some (Vector2.mk (S754_infinity false) S754_nan).
Proof. cbv zeta. repeat split; vm_compute; reflexivity. Qed.

(** C2, amended. On [TOUCH_MOVE] at [(x, y)] with a contact index [c]
    below [MAX_TOUCH_INPUTS], a joystick bound to [c] gets, with
    [dx = x - regionInner.x], [dy = y - regionInner.y] and [r] its radius:
    the direction [(dx * (1.0f / r), -dy * (1.0f / r))] when
    [dx * dx + dy * dy <= r * r], and otherwise the vector [(dx, -dy)]
    normalised, scaled by [r] and normalised again; in both cases the
    displacement [(dx, dy)], unclamped. Nothing else of it changes. *)
Theorem touch_move_joystick (MAX_TOUCH_INPUTS : N) (g : Gamepad.t)
    (x y : Z) (c : N) (i : nat) (j : Joystick.t) :
  (c < MAX_TOUCH_INPUTS)%N ->
  Gamepad._joysticks g !! i = Some j ->
  Joystick._contactIndex j = c ->
  let g' := Gamepad.touch MAX_TOUCH_INPUTS g x y TOUCH_MOVE c in
  let dx := (F32.of_int x - Rect.x (Joystick._regionInner j))%f32 in
  let dy := (F32.of_int y - Rect.y (Joystick._regionInner j))%f32 in
  let r := Joystick._radius j in
  exists direction,
    Gamepad._joysticks g' !! i
    = Some (Joystick.mk
              (Vector2.mk dx dy) direction r
              (Joystick._defaultTextureInnerEnabled j)
              (Joystick._defaultTextureOuterEnabled j)
              c
              (Joystick._regionInner j) (Joystick._regionOuter j)
              (Joystick._defaultTexCoordInner j)
              (Joystick._defaultTexCoordOuter j))
    /\ Gamepad.getJoystickState g' (N.of_nat i) = Some direction
    /\ ((dx * dx + dy * dy <=? r * r)%f32 = true ->
        direction
        = Vector2.mk (dx * (F32.one / r))%f32 (- dy * (F32.one / r))%f32)
    /\ ((dx * dx + dy * dy <=? r * r)%f32 = false ->
        direction
        = Vector2.normalize
            (Vector2.scale
               (Vector2.normalize (Vector2.mk dx (- dy)%f32)) r)).
Proof.
  intros Hc Hj Hbound g' dx dy r.
  pose proof (touch_joystick_at MAX_TOUCH_INPUTS g x y TOUCH_MOVE c i j Hc Hj)
    as Hj'.
  fold g' in Hj'.
  cbn [Gamepad.touchJoystick] in Hj'.
  rewrite (moveJoystick_bound _ _ _ _ Hbound) in Hj'.
  exists (scaledDirection (displacementOf j x y) (Joystick._radius j)).
  split; [exact Hj'|].
  split; [now rewrite (getJoystickState_lookup _ _ _ Hj')|].
  unfold scaledDirection, displacementOf, Gamepad.withinRadius.
  cbn [Vector2.x Vector2.y]. fold dx dy r.
  split; intros Hin; now rewrite Hin.
Qed.

Lemma touch_move_joystick_witness :
  let g' := Gamepad.touch Demo.MAX_TOUCH_INPUTS Demo.held 230 200 TOUCH_MOVE 1
  in
  (1 < Demo.MAX_TOUCH_INPUTS)%N
  /\ Joystick._contactIndex <$> Gamepad._joysticks Demo.held !! 0%nat
     = Some 1%N
  /\ Gamepad.getJoystickState g' 0
     = Some (Vector2.mk (F32.of_int 30 * (F32.one / F32.of_int 50))%f32
                        (S754_zero true))
  /\ Joystick._displacement <$> Gamepad._joysticks g' !! 0%nat
     = Some (Vector2.mk (F32.of_int 30) F32.zero).
Proof.
  destruct (touch_move_joystick Demo.MAX_TOUCH_INPUTS Demo.held 230 200 1 0
              _ eq_refl eq_refl eq_refl)
    as (direction & Hj & Hstate & Hin & _).
  split; [reflexivity|]. split; [reflexivity|]. split.
  - etransitivity; [exact Hstate|]. f_equal.
    etransitivity; [apply Hin; vm_compute; reflexivity|].
    vm_compute; reflexivity.
  - etransitivity; [exact (f_equal (fmap Joystick._displacement) Hj)|].
    vm_compute; reflexivity.
Defined.

(** ** Texture coordinates *)

(** C3, as stated, fails: on the 256 by 256 texture, the region at
    [x = 512] of width 64 handed to [setButton] as default texture region
    is stored with [u1 = 2] and [u2 = 2.25], outside of [[0, 1]]. *)
Lemma setButton_texCoord_outside_texture :
  let stored :=
    g ← Gamepad.setButton Demo.fresh 0 None
          (Some (Demo.rect 512 0 64 64)) None;
    Button._defaultTexCoord <$> Gamepad._buttons g !! 0%nat in
  stored
  = Some (UVs.mk (F32.of_int 2) F32.one
                 (F32.of_int 9 / F32.of_int 4)%f32
                 (F32.of_int 3 / F32.of_int 4)%f32)
  /\ UVs_in_texture <$> stored = Some false
  /\ (in_unit ∘ UVs.u1) <$> stored = Some false.
Proof. cbv zeta. repeat split; vm_compute; reflexivity. Qed.

(** C3, amended. For every region rectangle [(x, y, width, height)]
    handed to [setButton] (default or focus texture region) or to
    [setJoystick] (inner or outer texture region) with an index in range,
    the coordinates stored are [u1 = x / W], [v1 = 1 - y / H],
    [u2 = u1 + width / W], [v2 = v1 - height / H], with [W] and [H] the
    width and height of the texture, and the texture is marked enabled.
    They are stored as computed: nothing confines them to [[0, 1]]. *)
Theorem texCoord_stored (g : Gamepad.t) (index : N) (region : Rect.t)
    (bounds other inner outer : option Rect.t) (radius : F32.float) :
  let W := Texture.getWidth (Gamepad._texture g) in
  let H := Texture.getHeight (Gamepad._texture g) in
  let uv :=
    UVs.mk (Rect.x region / W)%f32
           (F32.one - Rect.y region / H)%f32
           (Rect.x region / W + Rect.width region / W)%f32
           (F32.one - Rect.y region / H - Rect.height region / H)%f32 in
  ((index < Gamepad._buttonCount g)%N ->
   (exists g' b,
       Gamepad.setButton g index bounds (Some region) other = Some g'
       /\ Gamepad._buttons g' !! N.to_nat index = Some b
       /\ Button._defaultTexCoord b = uv
       /\ Button._defaultTextureEnabled b = true)
   /\ (exists g' b,
          Gamepad.setButton g index bounds other (Some region) = Some g'
          /\ Gamepad._buttons g' !! N.to_nat index = Some b
          /\ Button._focusTexCoord b = uv
          /\ Button._focusTextureEnabled b = true))
  /\ ((index < Gamepad._joystickCount g)%N ->
      (exists g' j,
          Gamepad.setJoystick g index inner (Some region) outer other radius
          = Some g'
          /\ Gamepad._joysticks g' !! N.to_nat index = Some j
          /\ Joystick._defaultTexCoordInner j = uv
          /\ Joystick._defaultTextureInnerEnabled j = true)
      /\ (exists g' j,
             Gamepad.setJoystick g index inner other outer (Some region)
               radius
             = Some g'
             /\ Gamepad._joysticks g' !! N.to_nat index = Some j
             /\ Joystick._defaultTexCoordOuter j = uv
             /\ Joystick._defaultTextureOuterEnabled j = true)).
Proof.
  intros W H uv. unfold Gamepad.setButton, Gamepad.setJoystick.
  split; intros Hlt.
  - destruct (index_in_range _ _ Hlt) as [b Hb].
    pose proof (lookup_lt_Some _ _ _ Hb) as Hlen.
    apply N.ltb_lt in Hlt. rewrite Hlt, Hb. cbn [mbind option_bind].
    split; eexists _, _; (split; [reflexivity|]);
      cbn [Gamepad.with_buttons Gamepad._buttons];
      (split; [now apply list_lookup_insert_eq|]);
      destruct other; split; reflexivity.
  - destruct (index_in_range _ _ Hlt) as [j Hj].
    pose proof (lookup_lt_Some _ _ _ Hj) as Hlen.
    apply N.ltb_lt in Hlt. rewrite Hlt, Hj. cbn [mbind option_bind].
    split; eexists _, _; (split; [reflexivity|]);
      cbn [Gamepad.with_joysticks Gamepad._joysticks];
      (split; [now apply list_lookup_insert_eq|]);
      destruct other, outer; split; reflexivity.
Qed.

Lemma texCoord_stored_witness :
  (0 < Gamepad._buttonCount Demo.fresh)%N
  /\ exists g' b,
      Gamepad.setButton Demo.fresh 0 None (Some (Demo.rect 64 0 64 64)) None
      = Some g'
      /\ Gamepad._buttons g' !! 0%nat = Some b
      /\ Button._defaultTexCoord b
         = UVs.mk (F32.of_int 1 / F32.of_int 4)%f32 F32.one
                  (F32.of_int 1 / F32.of_int 2)%f32
                  (F32.of_int 3 / F32.of_int 4)%f32
      /\ UVs_in_texture (Button._defaultTexCoord b) = true.
Proof.
  split; [reflexivity|].
  destruct (proj1 (texCoord_stored Demo.fresh 0 (Demo.rect 64 0 64 64)
                     None None None None F32.one) eq_refl)
    as [(g' & b & Hset & Hb & Huv & _) _].
  exists g', b. split; [exact Hset|]. split; [exact Hb|].
  rewrite Huv. split; vm_compute; reflexivity.
Defined.

(** A rectangle that lies within the texture may still get a coordinate
    outside of [[0, 1]] by rounding: on a texture of height 3, the region
    of the rows 1 and 2 gets [v2 = -2^-24]. *)
Lemma texCoord_inside_texture_rounds_out :
  UVs.v2 (Gamepad.texCoord (Texture.mk (F32.of_int 3) (F32.of_int 3))
            (Demo.rect 0 1 3 2))
  = S754_finite true 8388608 (-47)
  /\ in_unit (S754_finite true 8388608 (-47)) = false.
Proof. split; vm_compute; reflexivity. Qed.

(** ** Drawing the inner joggle *)

Lemma drawInner_in_draw (g : Gamepad.t) (i : nat) (j : Joystick.t)
    (s : Sprite.t) :
  Gamepad._joysticks g !! i = Some j ->
  s ∈ Gamepad.drawInner j ->
  s ∈ Gamepad.draw g.
Proof.
  intros Hj Hs. unfold Gamepad.draw.
  apply elem_of_app. right.
  apply list_elem_of_bind. exists j. split.
  - apply elem_of_app. now right.
  - apply list_elem_of_lookup. now exists i.
Qed.

(** C4, as stated, fails: a joystick configured with the radius [-1] and
    never touched draws its inner joggle with the offset [(0, 0)], whose
    magnitude 0 exceeds the radius. *)
Lemma draw_offset_exceeds_negative_radius :
  let j := Gamepad._joysticks (Demo.originPad (F32.of_int (-1))) !! 0%nat in
  Joystick._defaultTextureInnerEnabled <$> j = Some true
  /\ Gamepad.innerJoggleOffset <$> j = Some Vector2.zero
  /\ Vector2.length <$> (Gamepad.innerJoggleOffset <$> j) = Some F32.zero
  /\ (fun j => magnitude_le (Gamepad.innerJoggleOffset j)
                 (Joystick._radius j)) <$> j
     = Some false.
Proof. cbv zeta. repeat split; vm_compute; reflexivity. Qed.

(** C4, amended. For every joystick with its inner default texture
    enabled, [draw] emits the inner joggle centred at the inner region's
    position plus an offset (the sprite's corner is half its width and
    height before that centre). The offset is the displacement when
    [dX * dX + dY * dY <= radius * radius], so that its squared magnitude
    is at most [radius * radius]; otherwise it is the displacement
    normalised and scaled by the radius. *)
Theorem draw_inner_joggle (g : Gamepad.t) (i : nat) (j : Joystick.t) :
  Gamepad._joysticks g !! i = Some j ->
  Joystick._defaultTextureInnerEnabled j = true ->
  let region := Joystick._regionInner j in
  let d := Joystick._displacement j in
  let radius := Joystick._radius j in
  exists offset,
    Sprite.mk
      (Rect.x region + Vector2.x offset - Rect.width region * F32.half)%f32
      (Rect.y region + Vector2.y offset - Rect.height region * F32.half)%f32
      (Rect.width region) (Rect.height region)
      (Joystick._defaultTexCoordInner j)
    ∈ Gamepad.draw g
    /\ ((Vector2.x d * Vector2.x d + Vector2.y d * Vector2.y d
         <=? radius * radius)%f32 = true ->
        offset = d
        /\ (Vector2.x offset * Vector2.x offset
            + Vector2.y offset * Vector2.y offset
            <=? radius * radius)%f32 = true)
    /\ ((Vector2.x d * Vector2.x d + Vector2.y d * Vector2.y d
         <=? radius * radius)%f32 = false ->
        offset = Vector2.scale (Vector2.normalize d) radius).
Proof.
  intros Hj Hinner region d radius.
  exists (Gamepad.innerJoggleOffset j). split.
  - apply (drawInner_in_draw g i j _ Hj).
    unfold Gamepad.drawInner, Gamepad.innerJoggleCenter.
    rewrite Hinner. apply list_elem_of_singleton. reflexivity.
  - unfold Gamepad.innerJoggleOffset, Gamepad.withinRadius.
    fold d radius. destruct d as [dX dY]. cbn [Vector2.x Vector2.y].
    split; intros Hin; rewrite Hin; [split|]; easy.
Qed.

Lemma draw_inner_joggle_witness :
  Joystick._defaultTextureInnerEnabled
    <$> Gamepad._joysticks Demo.held !! 0%nat = Some true
  /\ Joystick._displacement <$> Gamepad._joysticks Demo.held !! 0%nat
     = Some (Vector2.mk (F32.of_int 10) (F32.of_int (-10)))
  /\ Sprite.mk (F32.of_int 194) (F32.of_int 174)
               (F32.of_int 32) (F32.of_int 32)
               (Gamepad.texCoord Demo.texture (Demo.rect 128 0 32 32))
     ∈ Gamepad.draw Demo.held.
Proof.
  split; [reflexivity|]. split; [vm_compute; reflexivity|].
  destruct (draw_inner_joggle Demo.held 0 _ eq_refl eq_refl)
    as (offset & Hdraw & Hin & _).
  destruct (Hin ltac:(vm_compute; reflexivity)) as [-> _].
  vm_compute in Hdraw |- *. exact Hdraw.
Defined.

(** ** The direction over a sequence of touches *)











(** Rounding alone lifts the direction above the unit circle. In exact
    terms: with the radius 5, the press at [(3, 4)] from the joystick
    gives the direction [(10066330 * 2^-24, -13421773 * 2^-24)], the
    floats next to 0.6 and 0.8, and [10066330^2 + 13421773^2 > 2^48]. *)
Lemma direction_above_unit_circle :
  let g :=
    touches Demo.MAX_TOUCH_INPUTS (Demo.originPad (F32.of_int 5))
      [mkTouch 3 4 TOUCH_PRESS 0] in
  Gamepad.getJoystickState g 0
  = Some (Vector2.mk (S754_finite false 10066330 (-24))
                     (S754_finite true 13421773 (-24)))
  /\ 10066330 ^ 2 + 13421773 ^ 2 > 2 ^ 48.
Proof. cbv zeta. split; vm_compute; reflexivity. Qed.

(** And in single precision: with the radius [12243135 * 2^-17] (about
    93.4), the press at [(57, 74)] from the joystick lies within the
    radius and gives a direction whose length, computed in single
    precision, is [1 + 2^-23]. *)
Lemma direction_length_above_one :
  let radius := S754_finite false 12243135 (-17) in
  let g :=
    touches Demo.MAX_TOUCH_INPUTS (Demo.originPad radius)
      [mkTouch 57 74 TOUCH_PRESS 0] in
  positive radius = true
  /\ Gamepad.withinRadius (F32.of_int 57) (F32.of_int 74) radius = true
  /\ Vector2.length <$> Gamepad.getJoystickState g 0
     = Some (S754_finite false 8388609 (-23))
  /\ (fun v => magnitude_le v F32.one) <$> Gamepad.getJoystickState g 0
     = Some false.
Proof. cbv zeta. repeat split; vm_compute; reflexivity. Qed.




(** * Further properties of the gamepad *)

(** ** Lists of sprites *)

Lemma bind_nil {A B} (f : A -> list B) (l : list A) :
  Forall (fun a => f a = []) l -> l ≫= f = [].
Proof.
  induction 1 as [|a l Ha _ IH]; [reflexivity|].
  rewrite bind_cons, Ha, IH. reflexivity.
Qed.

(** ** The constructor *)

(** X1. A gamepad as the constructor leaves it, whatever the storage
    held: it has the counts asked for, every button is released, every
    joystick is inactive with the zero direction, and [draw] emits no
    sprite. *)
Theorem new_gamepad (MAX_TOUCH_INPUTS : N) (texture : Texture.t)
    (joysticks buttons : N) (memJ : nat -> Joystick.t)
    (memB : nat -> Button.t) :
  let g :=
    Gamepad.new MAX_TOUCH_INPUTS texture joysticks buttons memJ memB in
  Gamepad._joystickCount g = joysticks
  /\ Gamepad._buttonCount g = buttons
  /\ (forall index,
         (index < buttons)%N ->
         Gamepad.getButtonState g index = Some BUTTON_RELEASED)
  /\ (forall index,
         (index < joysticks)%N ->
         Gamepad.isJoystickActive g index = Some false
         /\ Gamepad.getJoystickState g index = Some Vector2.zero)
  /\ Gamepad.draw g = [].
Proof.
  intros g.
  assert (Hj : Gamepad._joystickCount g = joysticks).
  { unfold Gamepad._joystickCount, g, Gamepad.new. cbn [Gamepad._joysticks].
    rewrite length_fmap, length_seq. apply N2Nat.id. }
  assert (Hb : Gamepad._buttonCount g = buttons).
  { unfold Gamepad._buttonCount, g, Gamepad.new. cbn [Gamepad._buttons].
    rewrite length_fmap, length_seq. apply N2Nat.id. }
  split; [exact Hj|]. split; [exact Hb|]. split; [|split].
  - intros index Hlt. unfold Gamepad.getButtonState. rewrite Hb.
    apply N.ltb_lt in Hlt as Hlt'. rewrite Hlt'.
    unfold g, Gamepad.new. cbn [Gamepad._buttons].
    rewrite list_lookup_fmap, lookup_seq_lt by lia. reflexivity.
  - intros index Hlt.
    unfold Gamepad.isJoystickActive, Gamepad.getJoystickState. rewrite Hj.
    apply N.ltb_lt in Hlt as Hlt'. rewrite Hlt'.
    unfold g, Gamepad.new. cbn [Gamepad._joysticks].
    rewrite list_lookup_fmap, lookup_seq_lt by lia. split; reflexivity.
  - unfold Gamepad.draw, g, Gamepad.new.
    cbn [Gamepad._buttons Gamepad._joysticks].
    rewrite !bind_nil; [reflexivity| |];
      apply Forall_fmap, Forall_forall; intros i _; reflexivity.
Qed.

(** ** What touches leave alone *)

Lemma touchButton_config x y ev c (b : Button.t) :
  Button_config (Gamepad.touchButton x y ev c b) = Button_config b.
Proof.
  destruct ev; cbn [Gamepad.touchButton]; try reflexivity.
  - destruct (_ =? _)%N; [|reflexivity].
    now destruct (Gamepad.buttonHit b x y).
  - now destruct (_ =? _)%N.
Qed.

Lemma moveJoystick_config x y c (j : Joystick.t) :
  Joystick_config (Gamepad.moveJoystick x y c j) = Joystick_config j.
Proof. unfold Gamepad.moveJoystick. now destruct (_ =? _)%N. Qed.

Lemma touchJoystick_config x y ev c (j : Joystick.t) :
  Joystick_config (Gamepad.touchJoystick x y ev c j) = Joystick_config j.
Proof.
  destruct ev; cbn [Gamepad.touchJoystick];
    rewrite ?moveJoystick_config; try reflexivity.
  - unfold Gamepad.pressJoystick. now destruct (_ && _).
  - now destruct (_ =? _)%N.
Qed.

Lemma touch_config (MAX_TOUCH_INPUTS : N) g x y ev c :
  let g' := Gamepad.touch MAX_TOUCH_INPUTS g x y ev c in
  Button_config <$> Gamepad._buttons g'
  = Button_config <$> Gamepad._buttons g
  /\ Joystick_config <$> Gamepad._joysticks g'
     = Joystick_config <$> Gamepad._joysticks g
  /\ Gamepad._texture g' = Gamepad._texture g
  /\ Gamepad._touches g' = Gamepad._touches g.
Proof.
  unfold Gamepad.touch. destruct (MAX_TOUCH_INPUTS <=? c)%N; [easy|].
  cbn [Gamepad._buttons Gamepad._joysticks Gamepad._texture
       Gamepad._touches].
  rewrite <- !list_fmap_compose. repeat split.
  - apply list_fmap_ext. intros i b _. apply touchButton_config.
  - apply list_fmap_ext. intros i j _. apply touchJoystick_config.
Qed.

Lemma touches_config (MAX_TOUCH_INPUTS : N) calls :
  forall g,
    let g' := touches MAX_TOUCH_INPUTS g calls in
    Button_config <$> Gamepad._buttons g'
    = Button_config <$> Gamepad._buttons g
    /\ Joystick_config <$> Gamepad._joysticks g'
       = Joystick_config <$> Gamepad._joysticks g
    /\ Gamepad._texture g' = Gamepad._texture g
    /\ Gamepad._touches g' = Gamepad._touches g.
Proof.
  induction calls as [|call calls IH]; intros g; [easy|].
  cbn [touches foldl].
  destruct (IH (Gamepad.touch MAX_TOUCH_INPUTS g (tc_x call) (tc_y call)
                  (tc_event call) (tc_contact call)))
    as (Hb & Hj & Ht & Hs).
  destruct (touch_config MAX_TOUCH_INPUTS g (tc_x call) (tc_y call)
              (tc_event call) (tc_contact call))
    as (Hb' & Hj' & Ht' & Hs').
  cbv zeta in *. unfold touches in *.
  repeat split; etransitivity; eassumption.
Qed.

(** X2. No sequence of touches changes what was configured: the
    regions, texture coordinates and enabled textures of the buttons, the
    radius, regions, texture coordinates and enabled textures of the
    joysticks, their numbers, and the texture. *)
Theorem touches_keep_configuration (MAX_TOUCH_INPUTS : N) (g : Gamepad.t)
    (calls : list TouchCall) :
  let g' := touches MAX_TOUCH_INPUTS g calls in
  Button_config <$> Gamepad._buttons g'
  = Button_config <$> Gamepad._buttons g
  /\ Joystick_config <$> Gamepad._joysticks g'
     = Joystick_config <$> Gamepad._joysticks g
  /\ Gamepad._buttonCount g' = Gamepad._buttonCount g
  /\ Gamepad._joystickCount g' = Gamepad._joystickCount g
  /\ Gamepad._texture g' = Gamepad._texture g.
Proof.
  intros g'.
  destruct (touches_config MAX_TOUCH_INPUTS calls g) as (Hb & Hj & Ht & _).
  fold g' in Hb, Hj, Ht.
  split; [exact Hb|]. split; [exact Hj|]. split; [|split; [|exact Ht]].
  - unfold Gamepad._buttonCount. f_equal.
    rewrite <- (length_fmap Button_config (Gamepad._buttons g')), Hb.
    apply length_fmap.
  - unfold Gamepad._joystickCount. f_equal.
    rewrite <- (length_fmap Joystick_config (Gamepad._joysticks g')), Hj.
    apply length_fmap.
Qed.

(** ** What the setters leave alone *)

Lemma setButton_inv g buttonId bounds dflt focus g' :
  Gamepad.setButton g buttonId bounds dflt focus = Some g' ->
  exists b b',
    Gamepad._buttons g !! N.to_nat buttonId = Some b
    /\ g' = Gamepad.with_buttons g
              (<[N.to_nat buttonId := b']> (Gamepad._buttons g))
    /\ Button._pressed b' = Button._pressed b
    /\ Button._contactIndex b' = Button._contactIndex b
    /\ Button._region b' = default (Button._region b) bounds
    /\ Button._defaultTexCoord b'
       = default (Button._defaultTexCoord b)
           (Gamepad.texCoord (Gamepad._texture g) <$> dflt)
    /\ Button._focusTexCoord b'
       = default (Button._focusTexCoord b)
           (Gamepad.texCoord (Gamepad._texture g) <$> focus)
    /\ Button._defaultTextureEnabled b'
       = (Button._defaultTextureEnabled b || bool_decide (is_Some dflt))
    /\ Button._focusTextureEnabled b'
       = (Button._focusTextureEnabled b || bool_decide (is_Some focus)).
Proof.
  unfold Gamepad.setButton.
  destruct (buttonId <? Gamepad._buttonCount g)%N; [|discriminate].
  destruct (Gamepad._buttons g !! N.to_nat buttonId) as [b|]; [|discriminate].
  cbn [mbind option_bind]. intros [= <-].
  eexists b, _. split; [reflexivity|]. split; [reflexivity|].
  destruct bounds as [[]|], dflt, focus;
    cbn -[Gamepad.texCoord]; rewrite ?orb_true_r, ?orb_false_r;
    repeat split; reflexivity.
Qed.

Lemma setJoystick_inv g joystickId inner texInner outer texOuter radius g' :
  Gamepad.setJoystick g joystickId inner texInner outer texOuter radius
  = Some g' ->
  exists j j',
    Gamepad._joysticks g !! N.to_nat joystickId = Some j
    /\ g' = Gamepad.with_joysticks g
              (<[N.to_nat joystickId := j']> (Gamepad._joysticks g))
    /\ Joystick._displacement j' = Joystick._displacement j
    /\ Joystick._direction j' = Joystick._direction j
    /\ Joystick._contactIndex j' = Joystick._contactIndex j
    /\ Joystick._radius j' = radius
    /\ Joystick._regionInner j' = default (Joystick._regionInner j) inner
    /\ Joystick._regionOuter j' = default (Joystick._regionOuter j) outer
    /\ Joystick._defaultTexCoordInner j'
       = default (Joystick._defaultTexCoordInner j)
           (Gamepad.texCoord (Gamepad._texture g) <$> texInner)
    /\ Joystick._defaultTexCoordOuter j'
       = default (Joystick._defaultTexCoordOuter j)
           (Gamepad.texCoord (Gamepad._texture g) <$> texOuter)
    /\ Joystick._defaultTextureInnerEnabled j'
       = (Joystick._defaultTextureInnerEnabled j
          || bool_decide (is_Some texInner))
    /\ Joystick._defaultTextureOuterEnabled j'
       = (Joystick._defaultTextureOuterEnabled j
          || bool_decide (is_Some texOuter)).
Proof.
  unfold Gamepad.setJoystick.
  destruct (joystickId <? Gamepad._joystickCount g)%N; [|discriminate].
  destruct (Gamepad._joysticks g !! N.to_nat joystickId) as [j|];
    [|discriminate].
  cbn [mbind option_bind]. intros [= <-].
  eexists j, _. split; [reflexivity|]. split; [reflexivity|].
  destruct inner as [[]|], texInner, outer as [[]|], texOuter;
    cbn -[Gamepad.texCoord]; rewrite ?orb_true_r, ?orb_false_r;
    repeat split; reflexivity.
Qed.

(** ** Pressed buttons and active joysticks *)

Lemma touchButton_consistent (MAX_TOUCH_INPUTS : N) x y ev c b :
  (MAX_TOUCH_INPUTS <= UINT_MAX)%N ->
  (c < MAX_TOUCH_INPUTS)%N ->
  button_consistent MAX_TOUCH_INPUTS b ->
  button_consistent MAX_TOUCH_INPUTS (Gamepad.touchButton x y ev c b).
Proof.
  intros Hmax Hc Hb.
  pose proof (contact_below_MAX_valid _ _ Hmax Hc) as Hvalid.
  destruct ev; cbn [Gamepad.touchButton]; try exact Hb.
  - destruct (_ =? _)%N; [|exact Hb].
    destruct (Gamepad.buttonHit b x y); [|exact Hb].
    split; cbn [Button.set_contact Button._pressed Button._contactIndex];
      [split|]; easy.
  - destruct (_ =? _)%N; [|exact Hb].
    split; cbn [Button.set_contact Button._pressed Button._contactIndex];
      [split|]; easy.
Qed.

Lemma moveJoystick_consistent (MAX_TOUCH_INPUTS : N) x y c j :
  (MAX_TOUCH_INPUTS <= UINT_MAX)%N ->
  (c < MAX_TOUCH_INPUTS)%N ->
  joystick_consistent MAX_TOUCH_INPUTS j ->
  joystick_consistent MAX_TOUCH_INPUTS (Gamepad.moveJoystick x y c j).
Proof.
  intros Hmax Hc Hj.
  pose proof (contact_below_MAX_valid _ _ Hmax Hc) as Hvalid.
  unfold Gamepad.moveJoystick.
  destruct (N.eqb_spec (Joystick._contactIndex j) c) as [Heq|]; [|exact Hj].
  split; cbn [Joystick.set_vectors Joystick._contactIndex]; [|apply Hj].
  intros Hfree. congruence.
Qed.

Lemma touchJoystick_consistent (MAX_TOUCH_INPUTS : N) x y ev c j :
  (MAX_TOUCH_INPUTS <= UINT_MAX)%N ->
  (c < MAX_TOUCH_INPUTS)%N ->
  joystick_consistent MAX_TOUCH_INPUTS j ->
  joystick_consistent MAX_TOUCH_INPUTS (Gamepad.touchJoystick x y ev c j).
Proof.
  intros Hmax Hc Hj.
  pose proof (contact_below_MAX_valid _ _ Hmax Hc) as Hvalid.
  destruct ev; cbn [Gamepad.touchJoystick]; try exact Hj.
  - apply moveJoystick_consistent; try assumption.
    unfold Gamepad.pressJoystick. destruct (_ && _); [|exact Hj].
    split; cbn [Joystick.reset Joystick._contactIndex]; easy.
  - destruct (_ =? _)%N; [|exact Hj].
    split; cbn [Joystick.reset Joystick._contactIndex
                Joystick._displacement Joystick._direction]; easy.
  - now apply moveJoystick_consistent.
Qed.

Lemma reachable_Forall_consistent (MAX_TOUCH_INPUTS : N) g :
  (MAX_TOUCH_INPUTS <= UINT_MAX)%N ->
  reachable MAX_TOUCH_INPUTS g ->
  Forall (button_consistent MAX_TOUCH_INPUTS) (Gamepad._buttons g)
  /\ Forall (joystick_consistent MAX_TOUCH_INPUTS) (Gamepad._joysticks g).
Proof.
  intros Hmax.
  induction 1 as [texture joysticks buttons memJ memB
                 |g g' buttonId bounds dflt focus _ [IHb IHj] Hset
                 |g g' joystickId inner texInner outer texOuter radius
                    _ [IHb IHj] Hset
                 |g x y ev c _ [IHb IHj]].
  - cbn [Gamepad.new Gamepad._buttons Gamepad._joysticks].
    split; apply Forall_fmap, Forall_forall; intros i _;
      (split; [|easy]); cbn; easy.
  - destruct (setButton_inv _ _ _ _ _ _ Hset)
      as (b & b' & Hb & -> & Hp & Hc & _).
    cbn [Gamepad.with_buttons Gamepad._buttons Gamepad._joysticks].
    split; [|exact IHj]. apply Forall_insert; [exact IHb|].
    pose proof (Forall_lookup_1 _ _ _ _ IHb Hb) as Hcons.
    unfold button_consistent in *. now rewrite Hp, Hc.
  - destruct (setJoystick_inv _ _ _ _ _ _ _ _ Hset)
      as (j & j' & Hj & -> & Hd & Hv & Hc & _).
    cbn [Gamepad.with_joysticks Gamepad._buttons Gamepad._joysticks].
    split; [exact IHb|]. apply Forall_insert; [exact IHj|].
    pose proof (Forall_lookup_1 _ _ _ _ IHj Hj) as Hcons.
    unfold joystick_consistent in *. now rewrite Hd, Hv, Hc.
  - unfold Gamepad.touch.
    destruct (N.leb_spec MAX_TOUCH_INPUTS c) as [|Hc]; [now split|].
    cbn [Gamepad._buttons Gamepad._joysticks].
    split; apply Forall_fmap; [eapply Forall_impl; [exact IHb|]
                              |eapply Forall_impl; [exact IHj|]];
      intros ? ?; [now apply touchButton_consistent
                  |now apply touchJoystick_consistent].
Qed.

(** X3. In every gamepad a program can reach by [setButton],
    [setJoystick] and [touch] calls after the constructor, a button is
    [BUTTON_PRESSED] exactly when a contact is bound to it, a joystick
    without a contact has the zero displacement and the zero direction,
    and every bound contact is below [MAX_TOUCH_INPUTS]. *)
Theorem reachable_consistent (MAX_TOUCH_INPUTS : N) (g : Gamepad.t) :
  (MAX_TOUCH_INPUTS <= UINT_MAX)%N ->
  reachable MAX_TOUCH_INPUTS g ->
  (forall (i : nat) (b : Button.t),
      Gamepad._buttons g !! i = Some b ->
      (Button._pressed b = BUTTON_PRESSED
       <-> Button._contactIndex b <> INVALID_CONTACT_INDEX)
      /\ (Button._contactIndex b <> INVALID_CONTACT_INDEX ->
          (Button._contactIndex b < MAX_TOUCH_INPUTS)%N))
  /\ (forall (i : nat) (j : Joystick.t),
         Gamepad._joysticks g !! i = Some j ->
         (Joystick._contactIndex j = INVALID_CONTACT_INDEX ->
          Joystick._displacement j = Vector2.zero
          /\ Joystick._direction j = Vector2.zero)
         /\ (Joystick._contactIndex j <> INVALID_CONTACT_INDEX ->
             (Joystick._contactIndex j < MAX_TOUCH_INPUTS)%N)).
Proof.
  intros Hmax Hreach.
  destruct (reachable_Forall_consistent _ _ Hmax Hreach) as [Hb Hj].
  split.
  - intros i b Hi. exact (Forall_lookup_1 _ _ _ _ Hb Hi).
  - intros i j Hi. exact (Forall_lookup_1 _ _ _ _ Hj Hi).
Qed.

Lemma Demo_MAX_uint : (Demo.MAX_TOUCH_INPUTS <= UINT_MAX)%N.
Proof. vm_compute; discriminate. Qed.

Lemma Demo_pad_reachable : reachable Demo.MAX_TOUCH_INPUTS Demo.pad.
Proof.
  apply (reachable_setJoystick _ Demo.step2 _ 0
           (Some (Demo.rect 200 200 32 32)) (Some (Demo.rect 128 0 32 32))
           (Some (Demo.rect 200 200 128 128))
           (Some (Demo.rect 128 128 128 128)) (F32.of_int 50));
    [|reflexivity].
  apply (reachable_setButton _ Demo.step1 _ 1
           (Some (Demo.rect 60 10 40 40)) (Some (Demo.rect 0 64 64 64)) None);
    [|reflexivity].
  apply (reachable_setButton _ Demo.fresh _ 0
           (Some (Demo.rect 10 10 40 40)) (Some (Demo.rect 0 0 64 64))
           (Some (Demo.rect 64 0 64 64)));
    [|reflexivity].
  unfold Demo.fresh. apply reachable_new.
Qed.

Lemma Demo_held_reachable : reachable Demo.MAX_TOUCH_INPUTS Demo.held.
Proof.
  unfold Demo.held. cbn [touches foldl tc_x tc_y tc_event tc_contact].
  do 2 apply reachable_touch. exact Demo_pad_reachable.
Qed.

Lemma reachable_consistent_witness :
  (Demo.MAX_TOUCH_INPUTS <= UINT_MAX)%N
  /\ reachable Demo.MAX_TOUCH_INPUTS Demo.held
  /\ Gamepad.getButtonState Demo.held 0 = Some BUTTON_PRESSED
  /\ Button._contactIndex <$> Gamepad._buttons Demo.held !! 0%nat
     <> Some INVALID_CONTACT_INDEX.
Proof.
  split; [exact Demo_MAX_uint|]. split; [exact Demo_held_reachable|].
  split; [reflexivity|].
  destruct (reachable_consistent Demo.MAX_TOUCH_INPUTS Demo.held
              Demo_MAX_uint Demo_held_reachable) as [Hb _].
  destruct (Hb 0%nat _ eq_refl) as [[Hbound _] _].
  intros Hfree. apply (Hbound eq_refl). apply (inj Some). exact Hfree.
Defined.

(** ** A whole gesture *)

Lemma touches_handled (MAX_TOUCH_INPUTS : N) calls :
  Forall (fun call => (tc_contact call < MAX_TOUCH_INPUTS)%N) calls ->
  forall g,
    touches MAX_TOUCH_INPUTS g calls
    = Gamepad.mk (touchesJoystick calls <$> Gamepad._joysticks g)
                 (touchesButton calls <$> Gamepad._buttons g)
                 (Gamepad._texture g) (Gamepad._touches g).
Proof.
  induction 1 as [|call calls Hc _ IH]; intros g.
  - cbn [touches touchesJoystick touchesButton foldl].
    rewrite !list_fmap_id. now destruct g.
  - cbn [touches foldl]. fold (touches MAX_TOUCH_INPUTS).
    unfold touches in IH |- *. rewrite IH.
    rewrite (touch_handled MAX_TOUCH_INPUTS g _ _ _ _ Hc).
    cbn [Gamepad._joysticks Gamepad._buttons Gamepad._texture
         Gamepad._touches].
    rewrite <- !list_fmap_compose. reflexivity.
Qed.

Lemma touchesButton_app calls1 calls2 b :
  touchesButton (calls1 ++ calls2) b
  = touchesButton calls2 (touchesButton calls1 b).
Proof. apply foldl_app. Qed.

Lemma touchesJoystick_app calls1 calls2 j :
  touchesJoystick (calls1 ++ calls2) j
  = touchesJoystick calls2 (touchesJoystick calls1 j).
Proof. apply foldl_app. Qed.

Lemma touchesButton_moves c (moves : list (Z * Z)) b :
  touchesButton ((fun p => mkTouch (fst p) (snd p) TOUCH_MOVE c) <$> moves) b
  = b.
Proof. induction moves as [|p moves IH]; [reflexivity | exact IH]. Qed.

Lemma touchesJoystick_moves_other c (moves : list (Z * Z)) j :
  Joystick._contactIndex j <> c ->
  touchesJoystick ((fun p => mkTouch (fst p) (snd p) TOUCH_MOVE c) <$> moves)
    j
  = j.
Proof.
  intros Hother. induction moves as [|p moves IH]; [reflexivity|].
  cbn [fmap list_fmap touchesJoystick foldl tc_x tc_y tc_event tc_contact
       Gamepad.touchJoystick].
  unfold Gamepad.moveJoystick. apply N.eqb_neq in Hother as Hneq.
  rewrite Hneq. exact IH.
Qed.

Lemma touchesJoystick_moves_bound c (moves : list (Z * Z)) j :
  Joystick._contactIndex j = c ->
  let j' :=
    touchesJoystick
      ((fun p => mkTouch (fst p) (snd p) TOUCH_MOVE c) <$> moves) j in
  Joystick._contactIndex j' = c
  /\ Joystick_config j' = Joystick_config j.
Proof.
  revert j. induction moves as [|p moves IH]; intros j Hc; [easy|].
  cbn [fmap list_fmap touchesJoystick foldl tc_x tc_y tc_event tc_contact
       Gamepad.touchJoystick].
  destruct (IH (Gamepad.moveJoystick (fst p) (snd p) c j)) as [Hc' Hcfg].
  { now rewrite moveJoystick_contactIndex. }
  split; [exact Hc'|]. etransitivity; [exact Hcfg|].
  apply moveJoystick_config.
Qed.

Lemma gesture_button c press moves release b :
  c <> INVALID_CONTACT_INDEX ->
  (Button._pressed b = BUTTON_PRESSED
   <-> Button._contactIndex b <> INVALID_CONTACT_INDEX) ->
  Button._contactIndex b <> c ->
  touchesButton (gesture c press moves release) b = b.
Proof.
  intros Hvalid Hcons Hother. unfold gesture.
  change (touchesButton (?call :: ?rest) b)
    with (touchesButton rest
            (Gamepad.touchButton (tc_x call) (tc_y call) (tc_event call)
               (tc_contact call) b)).
  rewrite touchesButton_app, touchesButton_moves.
  cbn [touchesButton foldl tc_x tc_y tc_event tc_contact
       Gamepad.touchButton].
  destruct (N.eqb_spec (Button._contactIndex b) INVALID_CONTACT_INDEX)
    as [Hfree | Hbound].
  - destruct (Gamepad.buttonHit b (fst press) (snd press)).
    + cbn [Button.set_contact Button._contactIndex]. rewrite N.eqb_refl.
      destruct b as [pressed de fe contact region dt ft].
      cbn in Hfree, Hcons |- *. subst contact.
      destruct pressed; [|reflexivity].
      now destruct (proj1 Hcons eq_refl).
    + apply N.eqb_neq in Hother. now rewrite Hother.
  - apply N.eqb_neq in Hother. now rewrite Hother.
Qed.

Lemma gesture_joystick c press moves release j :
  c <> INVALID_CONTACT_INDEX ->
  (Joystick._contactIndex j = INVALID_CONTACT_INDEX ->
   Joystick._displacement j = Vector2.zero
   /\ Joystick._direction j = Vector2.zero) ->
  Joystick._contactIndex j <> c ->
  touchesJoystick (gesture c press moves release) j = j.
Proof.
  intros Hvalid Hcons Hother. unfold gesture.
  change (touchesJoystick (?call :: ?rest) j)
    with (touchesJoystick rest
            (Gamepad.touchJoystick (tc_x call) (tc_y call) (tc_event call)
               (tc_contact call) j)).
  rewrite touchesJoystick_app.
  cbn [tc_x tc_y tc_event tc_contact Gamepad.touchJoystick].
  apply N.eqb_neq in Hother as Hneq.
  unfold Gamepad.pressJoystick.
  destruct (Gamepad.joystickHit j (fst press) (snd press)
            && (Joystick._contactIndex j =? INVALID_CONTACT_INDEX)%N)
    eqn:Hpress.
  - apply andb_true_iff in Hpress as [_ Hfree]. apply N.eqb_eq in Hfree.
    destruct (Hcons Hfree) as [Hd Hv].
    destruct (touchesJoystick_moves_bound c moves
                (Gamepad.moveJoystick (fst press) (snd press) c
                   (Joystick.reset j c)))
      as [Hc2 Hcfg2]; [now rewrite moveJoystick_contactIndex|].
    rewrite moveJoystick_config in Hcfg2.
    change (Joystick_config (Joystick.reset j c))
      with (Joystick_config j) in Hcfg2.
    revert Hc2 Hcfg2.
    generalize (touchesJoystick
                  ((fun p => mkTouch (fst p) (snd p) TOUCH_MOVE c) <$> moves)
                  (Gamepad.moveJoystick (fst press) (snd press) c
                     (Joystick.reset j c))).
    intros j2 Hc2 Hcfg2.
    cbn [touchesJoystick foldl tc_x tc_y tc_event tc_contact
         Gamepad.touchJoystick].
    rewrite Hc2, N.eqb_refl.
    destruct j as [d v r ie oe contact ri ro ti to].
    destruct j2 as [d2 v2 r2 ie2 oe2 contact2 ri2 ro2 ti2 to2].
    unfold Joystick_config in Hcfg2. cbn in Hcfg2, Hfree, Hd, Hv |- *.
    injection Hcfg2 as -> -> -> -> -> -> ->. now subst.
  - unfold Gamepad.moveJoystick at 1. rewrite Hneq.
    rewrite touchesJoystick_moves_other by assumption.
    cbn [touchesJoystick foldl tc_x tc_y tc_event tc_contact
         Gamepad.touchJoystick].
    now rewrite Hneq.
Qed.

Lemma gesture_handled (MAX_TOUCH_INPUTS : N) c press moves release :
  (c < MAX_TOUCH_INPUTS)%N ->
  Forall (fun call => (tc_contact call < MAX_TOUCH_INPUTS)%N)
    (gesture c press moves release).
Proof.
  intros Hc. unfold gesture.
  apply Forall_cons. split; [exact Hc|].
  apply Forall_app. split.
  - apply Forall_fmap, Forall_forall. intros p _. exact Hc.
  - apply Forall_singleton. exact Hc.
Qed.

(** X4. A whole gesture of one contact, a press, any moves and a
    release, leaves a reachable gamepad exactly as it was, provided no
    button and no joystick was bound to that contact before. *)
Theorem gesture_round_trip (MAX_TOUCH_INPUTS : N) (g : Gamepad.t) (c : N)
    (press release : Z * Z) (moves : list (Z * Z)) :
  (MAX_TOUCH_INPUTS <= UINT_MAX)%N ->
  (c < MAX_TOUCH_INPUTS)%N ->
  reachable MAX_TOUCH_INPUTS g ->
  (forall (i : nat) (b : Button.t),
      Gamepad._buttons g !! i = Some b -> Button._contactIndex b <> c) ->
  (forall (i : nat) (j : Joystick.t),
      Gamepad._joysticks g !! i = Some j -> Joystick._contactIndex j <> c) ->
  touches MAX_TOUCH_INPUTS g (gesture c press moves release) = g.
Proof.
  intros Hmax Hc Hreach Hbuttons Hjoysticks.
  pose proof (contact_below_MAX_valid _ _ Hmax Hc) as Hvalid.
  destruct (reachable_Forall_consistent _ _ Hmax Hreach) as [Hb Hj].
  rewrite (touches_handled _ _ (gesture_handled _ _ press moves release Hc)).
  destruct g as [js bs texture ts]. cbn [Gamepad._joysticks Gamepad._buttons
    Gamepad._texture Gamepad._touches] in *.
  f_equal.
  - rewrite <- (list_fmap_id js) at 2. apply list_fmap_ext.
    intros i j Hi. apply gesture_joystick; try assumption.
    + exact (proj1 (Forall_lookup_1 _ _ _ _ Hj Hi)).
    + exact (Hjoysticks i j Hi).
  - rewrite <- (list_fmap_id bs) at 2. apply list_fmap_ext.
    intros i b Hi. apply gesture_button; try assumption.
    + exact (proj1 (Forall_lookup_1 _ _ _ _ Hb Hi)).
    + exact (Hbuttons i b Hi).
Qed.

Lemma Demo_pad_idle (c : N) :
  c <> INVALID_CONTACT_INDEX ->
  (forall (i : nat) (b : Button.t),
      Gamepad._buttons Demo.pad !! i = Some b -> Button._contactIndex b <> c)
  /\ (forall (i : nat) (j : Joystick.t),
         Gamepad._joysticks Demo.pad !! i = Some j ->
         Joystick._contactIndex j <> c).
Proof.
  intros Hc. split.
  - intros [|[|i]] b [= <-]; cbn; congruence.
  - intros [|i] j [= <-]; cbn; congruence.
Qed.

Lemma gesture_round_trip_witness :
  let calls := gesture 1 (210, 190) [(230, 200); (900, 900)] (0, 0) in
  (Demo.MAX_TOUCH_INPUTS <= UINT_MAX)%N
  /\ (1 < Demo.MAX_TOUCH_INPUTS)%N
  /\ reachable Demo.MAX_TOUCH_INPUTS Demo.pad
  /\ Gamepad.isJoystickActive
       (touches Demo.MAX_TOUCH_INPUTS Demo.pad (removelast calls)) 0
     = Some true
  /\ touches Demo.MAX_TOUCH_INPUTS Demo.pad calls = Demo.pad.
Proof.
  cbv zeta.
  split; [exact Demo_MAX_uint|]. split; [reflexivity|].
  split; [exact Demo_pad_reachable|]. split; [vm_compute; reflexivity|].
  assert (Hvalid : 1%N <> INVALID_CONTACT_INDEX) by (vm_compute; discriminate).
  destruct (Demo_pad_idle 1 Hvalid) as [Hb Hj].
  exact (gesture_round_trip Demo.MAX_TOUCH_INPUTS Demo.pad 1 (210, 190) (0, 0)
           [(230, 200); (900, 900)] Demo_MAX_uint eq_refl Demo_pad_reachable
           Hb Hj).
Defined.

(** ** The same event twice, and events of other contacts *)

Lemma touchButton_idempotent x y ev c b :
  c <> INVALID_CONTACT_INDEX ->
  Gamepad.touchButton x y ev c (Gamepad.touchButton x y ev c b)
  = Gamepad.touchButton x y ev c b.
Proof.
  intros Hvalid. apply N.eqb_neq in Hvalid as Hneq.
  destruct ev; cbn [Gamepad.touchButton]; try reflexivity.
  - destruct (Button._contactIndex b =? INVALID_CONTACT_INDEX)%N eqn:Hfree.
    + destruct (Gamepad.buttonHit b x y) eqn:Hhit.
      * cbn [Button.set_contact Button._contactIndex]. now rewrite Hneq.
      * now rewrite Hfree, Hhit.
    + now rewrite Hfree.
  - destruct (Button._contactIndex b =? c)%N eqn:Hbound.
    + cbn [Button.set_contact Button._contactIndex].
      change (to_uint (-1)) with INVALID_CONTACT_INDEX.
      rewrite N.eqb_sym. now rewrite Hneq.
    + now rewrite Hbound.
Qed.

Lemma moveJoystick_idempotent x y c j :
  Gamepad.moveJoystick x y c (Gamepad.moveJoystick x y c j)
  = Gamepad.moveJoystick x y c j.
Proof.
  destruct (N.eqb_spec (Joystick._contactIndex j) c) as [Hbound | Hother].
  - rewrite (moveJoystick_bound x y c j Hbound).
    now rewrite moveJoystick_bound by reflexivity.
  - apply N.eqb_neq in Hother. unfold Gamepad.moveJoystick.
    now rewrite !Hother.
Qed.

Lemma touchJoystick_idempotent x y ev c j :
  c <> INVALID_CONTACT_INDEX ->
  Gamepad.touchJoystick x y ev c (Gamepad.touchJoystick x y ev c j)
  = Gamepad.touchJoystick x y ev c j.
Proof.
  intros Hvalid. apply N.eqb_neq in Hvalid as Hneq.
  destruct ev; cbn [Gamepad.touchJoystick]; try reflexivity.
  - set (j1 := Gamepad.moveJoystick x y c (Gamepad.pressJoystick x y c j)).
    assert (Hsame : Gamepad.pressJoystick x y c j1 = j1
                    \/ Joystick._contactIndex j1 = INVALID_CONTACT_INDEX
                       /\ j1 = j).
    { unfold Gamepad.pressJoystick at 1.
      destruct (Joystick._contactIndex j1 =? INVALID_CONTACT_INDEX)%N
        eqn:Hfree1; [|left; now rewrite andb_false_r].
      right. apply N.eqb_eq in Hfree1. split; [exact Hfree1|].
      unfold j1 in Hfree1 |- *.
      rewrite moveJoystick_contactIndex in Hfree1.
      unfold Gamepad.pressJoystick in Hfree1 |- *.
      destruct (Gamepad.joystickHit j x y
                && (Joystick._contactIndex j =? INVALID_CONTACT_INDEX)%N).
      - cbn [Joystick.reset Joystick._contactIndex] in Hfree1. congruence.
      - unfold Gamepad.moveJoystick. rewrite Hfree1.
        rewrite N.eqb_sym. now rewrite Hneq. }
    destruct Hsame as [-> | [_ Hj1]].
    + unfold j1. apply moveJoystick_idempotent.
    + rewrite Hj1. exact Hj1.
  - destruct (Joystick._contactIndex j =? c)%N eqn:Hbound.
    + cbn [Joystick.reset Joystick._contactIndex].
      change (to_uint (-1)) with INVALID_CONTACT_INDEX.
      rewrite N.eqb_sym. now rewrite Hneq.
    + now rewrite Hbound.
  - apply moveJoystick_idempotent.
Qed.

(** X5. Delivering the same touch event twice in a row is the same as
    delivering it once, for every event kind, position and contact. *)
Theorem touch_idempotent (MAX_TOUCH_INPUTS : N) (g : Gamepad.t) (x y : Z)
    (touchEvent : TouchEvent) (contactIndex : N) :
  (MAX_TOUCH_INPUTS <= UINT_MAX)%N ->
  let once :=
    Gamepad.touch MAX_TOUCH_INPUTS g x y touchEvent contactIndex in
  Gamepad.touch MAX_TOUCH_INPUTS once x y touchEvent contactIndex = once.
Proof.
  intros Hmax once. subst once.
  destruct (N.leb_spec MAX_TOUCH_INPUTS contactIndex) as [Hge | Hlt].
  - now rewrite !touch_ignored by assumption.
  - pose proof (contact_below_MAX_valid _ _ Hmax Hlt) as Hvalid.
    rewrite !touch_handled by assumption.
    cbn [Gamepad._joysticks Gamepad._buttons Gamepad._texture
         Gamepad._touches].
    rewrite <- !list_fmap_compose. f_equal.
    + apply list_fmap_ext. intros i j _.
      now apply touchJoystick_idempotent.
    + apply list_fmap_ext. intros i b _.
      now apply touchButton_idempotent.
Qed.

Lemma touch_idempotent_witness :
  let once := Gamepad.touch Demo.MAX_TOUCH_INPUTS Demo.pad 210 190
                TOUCH_PRESS 1 in
  (Demo.MAX_TOUCH_INPUTS <= UINT_MAX)%N
  /\ once <> Demo.pad
  /\ Gamepad.touch Demo.MAX_TOUCH_INPUTS once 210 190 TOUCH_PRESS 1 = once.
Proof.
  cbv zeta. split; [exact Demo_MAX_uint|]. split.
  - intros H. apply (f_equal (fun g => Gamepad.isJoystickActive g 0)) in H.
    vm_compute in H. discriminate H.
  - exact (touch_idempotent Demo.MAX_TOUCH_INPUTS Demo.pad 210 190
             TOUCH_PRESS 1 Demo_MAX_uint).
Defined.

(** X6. A button or joystick held by a contact is out of reach of every
    other contact: no event of a contact index other than the one bound
    changes it. *)
Theorem touch_other_contact (MAX_TOUCH_INPUTS : N) (g : Gamepad.t)
    (x y : Z) (touchEvent : TouchEvent) (c other : N) (i : nat) :
  c <> INVALID_CONTACT_INDEX ->
  other <> c ->
  let g' := Gamepad.touch MAX_TOUCH_INPUTS g x y touchEvent other in
  (forall b : Button.t,
      Gamepad._buttons g !! i = Some b ->
      Button._contactIndex b = c ->
      Gamepad._buttons g' !! i = Some b)
  /\ (forall j : Joystick.t,
         Gamepad._joysticks g !! i = Some j ->
         Joystick._contactIndex j = c ->
         Gamepad._joysticks g' !! i = Some j).
Proof.
  intros Hvalid Hother g'. subst g'.
  apply N.eqb_neq in Hvalid as Hbound.
  assert (Hneq : (c =? other)%N = false) by (apply N.eqb_neq; congruence).
  destruct (N.leb_spec MAX_TOUCH_INPUTS other) as [Hge | Hlt].
  { rewrite touch_ignored by assumption. now split. }
  split.
  - intros b Hb Hc. rewrite (touch_button_at _ _ _ _ _ _ _ _ Hlt Hb).
    f_equal. destruct touchEvent; cbn [Gamepad.touchButton];
      rewrite ?Hc, ?Hbound, ?Hneq; reflexivity.
  - intros j Hj Hc. rewrite (touch_joystick_at _ _ _ _ _ _ _ _ Hlt Hj).
    f_equal. destruct touchEvent; cbn [Gamepad.touchJoystick];
      unfold Gamepad.pressJoystick, Gamepad.moveJoystick;
      rewrite ?Hc, ?Hbound, ?andb_false_r, ?Hc, ?Hneq; reflexivity.
Qed.

Lemma touch_other_contact_witness :
  let g' := Gamepad.touch Demo.MAX_TOUCH_INPUTS Demo.held 20 20
              TOUCH_RELEASE 3 in
  0%N <> INVALID_CONTACT_INDEX
  /\ 3%N <> 0%N
  /\ Gamepad.getButtonState Demo.held 0 = Some BUTTON_PRESSED
  /\ Gamepad._buttons g' !! 0%nat = Gamepad._buttons Demo.held !! 0%nat.
Proof.
  cbv zeta.
  assert (Hvalid : 0%N <> INVALID_CONTACT_INDEX) by (vm_compute; discriminate).
  assert (Hother : 3%N <> 0%N) by discriminate.
  split; [exact Hvalid|]. split; [exact Hother|]. split; [reflexivity|].
  destruct (touch_other_contact Demo.MAX_TOUCH_INPUTS Demo.held 20 20
              TOUCH_RELEASE 0 3 0 Hvalid Hother) as [Hb _].
  exact (Hb _ eq_refl eq_refl).
Defined.

(** X7. Buttons answer to presses and releases only: a [TOUCH_MOVE]
    leaves every button as it is, wherever the contact moves, and leaves
    every joystick not bound to the contact as it is; an event that is
    none of the three leaves the whole gamepad as it is. *)
Theorem touch_move_and_unknown (MAX_TOUCH_INPUTS : N) (g : Gamepad.t)
    (x y : Z) (c : N) (value : Z) :
  let g' := Gamepad.touch MAX_TOUCH_INPUTS g x y TOUCH_MOVE c in
  Gamepad._buttons g' = Gamepad._buttons g
  /\ (forall (i : nat) (j : Joystick.t),
         Gamepad._joysticks g !! i = Some j ->
         Joystick._contactIndex j <> c ->
         Gamepad._joysticks g' !! i = Some j)
  /\ Gamepad.touch MAX_TOUCH_INPUTS g x y (TOUCH_OTHER value) c = g.
Proof.
  intros g'. subst g'. unfold Gamepad.touch.
  destruct (MAX_TOUCH_INPUTS <=? c)%N; [easy|].
  cbn [Gamepad._buttons Gamepad._joysticks]. split; [|split].
  - rewrite <- (list_fmap_id (Gamepad._buttons g)) at 2.
    now apply list_fmap_ext.
  - intros i j Hj Hother. rewrite list_lookup_fmap, Hj.
    cbn [fmap option_fmap option_map Gamepad.touchJoystick].
    unfold Gamepad.moveJoystick. apply N.eqb_neq in Hother.
    now rewrite Hother.
  - destruct g as [js bs texture ts].
    cbn [Gamepad._buttons Gamepad._joysticks Gamepad._texture
         Gamepad._touches].
    f_equal.
    + rewrite <- (list_fmap_id js) at 2. now apply list_fmap_ext.
    + rewrite <- (list_fmap_id bs) at 2. now apply list_fmap_ext.
Qed.

(** ** Configuring *)

(** X8. [setButton] and [setJoystick] reconfigure one object and nothing
    else: the other buttons and joysticks, the counts and the texture stay,
    and the object itself keeps its touch state (a held button stays
    pressed and bound, a held joystick keeps contact, displacement and
    direction). [setButton] without any rectangle changes nothing at all;
    [setJoystick] always stores the radius. *)
Theorem setters_frame (g g' : Gamepad.t) (index : N)
    (bounds dflt focus inner texInner outer texOuter : option Rect.t)
    (radius : F32.float) :
  (Gamepad.setButton g index bounds dflt focus = Some g' ->
   Gamepad._joysticks g' = Gamepad._joysticks g
   /\ Gamepad._texture g' = Gamepad._texture g
   /\ Gamepad._buttonCount g' = Gamepad._buttonCount g
   /\ (forall i : nat,
          i <> N.to_nat index ->
          Gamepad._buttons g' !! i = Gamepad._buttons g !! i)
   /\ Gamepad.getButtonState g' index = Gamepad.getButtonState g index
   /\ Button._contactIndex <$> Gamepad._buttons g' !! N.to_nat index
      = Button._contactIndex <$> Gamepad._buttons g !! N.to_nat index
   /\ (bounds = None -> dflt = None -> focus = None -> g' = g))
  /\ (Gamepad.setJoystick g index inner texInner outer texOuter radius
      = Some g' ->
      Gamepad._buttons g' = Gamepad._buttons g
      /\ Gamepad._texture g' = Gamepad._texture g
      /\ Gamepad._joystickCount g' = Gamepad._joystickCount g
      /\ (forall i : nat,
             i <> N.to_nat index ->
             Gamepad._joysticks g' !! i = Gamepad._joysticks g !! i)
      /\ Gamepad.getJoystickState g' index
         = Gamepad.getJoystickState g index
      /\ Gamepad.isJoystickActive g' index
         = Gamepad.isJoystickActive g index
      /\ Joystick._displacement <$> Gamepad._joysticks g' !! N.to_nat index
         = Joystick._displacement <$> Gamepad._joysticks g !! N.to_nat index
      /\ Joystick._radius <$> Gamepad._joysticks g' !! N.to_nat index
         = Some radius).
Proof.
  split; intros Hset.
  - destruct (setButton_inv _ _ _ _ _ _ Hset)
      as (b & b' & Hb & -> & Hp & Hc & Hr & Hd & Hf & Hde & Hfe).
    pose proof (lookup_lt_Some _ _ _ Hb) as Hlen.
    assert (Hcount : Gamepad._buttonCount
                       (Gamepad.with_buttons g
                          (<[N.to_nat index:=b']> (Gamepad._buttons g)))
                     = Gamepad._buttonCount g).
    { unfold Gamepad._buttonCount. cbn [Gamepad.with_buttons
        Gamepad._buttons]. now rewrite length_insert. }
    unfold Gamepad.getButtonState. rewrite Hcount.
    cbn [Gamepad.with_buttons Gamepad._buttons Gamepad._joysticks
         Gamepad._texture].
    rewrite list_lookup_insert_eq, Hb by assumption.
    cbn [fmap option_fmap option_map]. rewrite Hp, Hc.
    repeat split.
    + intros i Hi. now apply list_lookup_insert_ne.
    + intros -> -> ->. cbn in Hr, Hd, Hf, Hde, Hfe.
      rewrite orb_false_r in Hde, Hfe.
      assert (b' = b) as ->.
      { destruct b, b'. cbn in *. congruence. }
      rewrite list_insert_id by assumption. now destruct g.
  - destruct (setJoystick_inv _ _ _ _ _ _ _ _ Hset)
      as (j & j' & Hj & -> & Hd & Hv & Hc & Hr & _).
    pose proof (lookup_lt_Some _ _ _ Hj) as Hlen.
    assert (Hcount : Gamepad._joystickCount
                       (Gamepad.with_joysticks g
                          (<[N.to_nat index:=j']> (Gamepad._joysticks g)))
                     = Gamepad._joystickCount g).
    { unfold Gamepad._joystickCount. cbn [Gamepad.with_joysticks
        Gamepad._joysticks]. now rewrite length_insert. }
    unfold Gamepad.getJoystickState, Gamepad.isJoystickActive.
    rewrite Hcount.
    cbn [Gamepad.with_joysticks Gamepad._buttons Gamepad._joysticks
         Gamepad._texture].
    rewrite list_lookup_insert_eq, Hj by assumption.
    cbn [fmap option_fmap option_map]. rewrite Hd, Hv, Hc, Hr.
    repeat split.
    intros i Hi. now apply list_lookup_insert_ne.
Qed.

Lemma setters_frame_witness :
  exists g',
    Gamepad.setJoystick Demo.held 0 None None None None (F32.of_int 7)
    = Some g'
    /\ Gamepad.isJoystickActive g' 0 = Some true
    /\ Gamepad.getJoystickState g' 0 = Gamepad.getJoystickState Demo.held 0
    /\ Joystick._radius <$> Gamepad._joysticks g' !! 0%nat
       = Some (F32.of_int 7)
    /\ Gamepad._buttons g' = Gamepad._buttons Demo.held.
Proof.
  destruct (Gamepad.setJoystick Demo.held 0 None None None None
              (F32.of_int 7)) as [g'|] eqn:Hset; [|discriminate Hset].
  exists g'. split; [reflexivity|].
  destruct (proj2 (setters_frame Demo.held g' 0 None None None None None
                     None None (F32.of_int 7)) Hset)
    as (Hb & _ & _ & _ & Hs & Ha & _ & Hr).
  split; [now rewrite Ha|]. split; [exact Hs|]. split; [exact Hr|exact Hb].
Defined.

(** X9. A button that is not held, once given its bounds by [setButton],
    answers a press at any point its bounds contain with
    [BUTTON_PRESSED], and the release of that contact with
    [BUTTON_RELEASED]. *)
Theorem setButton_press_release (MAX_TOUCH_INPUTS : N) (g g' : Gamepad.t)
    (index : N) (r : Rect.t) (dflt focus : option Rect.t)
    (x y x' y' : Z) (c : N) :
  (c < MAX_TOUCH_INPUTS)%N ->
  Gamepad.setButton g index (Some r) dflt focus = Some g' ->
  Button._contactIndex <$> Gamepad._buttons g !! N.to_nat index
  = Some INVALID_CONTACT_INDEX ->
  Rect_contains r x y = true ->
  let pressed := Gamepad.touch MAX_TOUCH_INPUTS g' x y TOUCH_PRESS c in
  let released :=
    Gamepad.touch MAX_TOUCH_INPUTS pressed x' y' TOUCH_RELEASE c in
  Gamepad.getButtonState pressed index = Some BUTTON_PRESSED
  /\ Gamepad.getButtonState released index = Some BUTTON_RELEASED.
Proof.
  intros Hc Hset Hfree Hin pressed released.
  destruct (setButton_inv _ _ _ _ _ _ Hset)
    as (b & b' & Hb & -> & _ & Hc' & Hr & _).
  rewrite Hb in Hfree. injection Hfree as Hfree.
  pose proof (lookup_lt_Some _ _ _ Hb) as Hlen.
  assert (Hb' : Gamepad._buttons
                  (Gamepad.with_buttons g
                     (<[N.to_nat index:=b']> (Gamepad._buttons g)))
                  !! N.to_nat index = Some b').
  { cbn [Gamepad.with_buttons Gamepad._buttons].
    now apply list_lookup_insert_eq. }
  pose proof (touch_button_at MAX_TOUCH_INPUTS _ x y TOUCH_PRESS c _ _ Hc Hb')
    as Hp.
  fold pressed in Hp.
  pose proof (touch_button_at MAX_TOUCH_INPUTS _ x' y' TOUCH_RELEASE c _ _ Hc
                Hp) as Hq.
  fold released in Hq.
  rewrite <- (N2Nat.id index).
  rewrite (getButtonState_lookup _ _ _ Hp), (getButtonState_lookup _ _ _ Hq).
  cbn [Gamepad.touchButton]. rewrite Hc', Hfree, N.eqb_refl.
  simpl in Hr. rewrite buttonHit_contains, Hr, Hin.
  cbn [Button.set_contact Button._contactIndex Button._pressed].
  now rewrite N.eqb_refl.
Qed.

Lemma setButton_press_release_witness :
  exists g',
    (2 < Demo.MAX_TOUCH_INPUTS)%N
    /\ Gamepad.setButton Demo.pad 1 (Some (Demo.rect 0 100 30 30)) None None
       = Some g'
    /\ Rect_contains (Demo.rect 0 100 30 30) 30 130 = true
    /\ Gamepad.getButtonState
         (Gamepad.touch Demo.MAX_TOUCH_INPUTS Demo.pad 30 130 TOUCH_PRESS 2) 1
       = Some BUTTON_RELEASED
    /\ Gamepad.getButtonState
         (Gamepad.touch Demo.MAX_TOUCH_INPUTS g' 30 130 TOUCH_PRESS 2) 1
       = Some BUTTON_PRESSED.
Proof.
  destruct (Gamepad.setButton Demo.pad 1 (Some (Demo.rect 0 100 30 30))
              None None) as [g'|] eqn:Hset; [|discriminate Hset].
  exists g'. split; [reflexivity|]. split; [reflexivity|].
  split; [vm_compute; reflexivity|]. split; [vm_compute; reflexivity|].
  refine (proj1 (setButton_press_release Demo.MAX_TOUCH_INPUTS Demo.pad g' 1
                   (Demo.rect 0 100 30 30) None None 30 130 0 0 2
                   eq_refl Hset eq_refl _)).
  vm_compute; reflexivity.
Defined.

(** ** Drawing *)

Lemma drawButton_in_draw (g : Gamepad.t) (i : nat) (b : Button.t)
    (s : Sprite.t) :
  Gamepad._buttons g !! i = Some b ->
  s ∈ Gamepad.drawButton b ->
  s ∈ Gamepad.draw g.
Proof.
  intros Hb Hs. unfold Gamepad.draw. apply elem_of_app. left.
  apply list_elem_of_bind. exists b. split; [exact Hs|].
  apply list_elem_of_lookup. now exists i.
Qed.

Lemma drawOuter_in_draw (g : Gamepad.t) (i : nat) (j : Joystick.t)
    (s : Sprite.t) :
  Gamepad._joysticks g !! i = Some j ->
  s ∈ Gamepad.drawOuter j ->
  s ∈ Gamepad.draw g.
Proof.
  intros Hj Hs. unfold Gamepad.draw. apply elem_of_app. right.
  apply list_elem_of_bind. exists j. split.
  - apply elem_of_app. now left.
  - apply list_elem_of_lookup. now exists i.
Qed.

Lemma length_bind_filter {A B} (f : A -> list B) (p : A -> bool)
    (l : list A) :
  (forall a, length (f a) = if p a then 1%nat else 0%nat) ->
  length (l ≫= f) = length (filter (fun a => p a = true) l).
Proof.
  intros Hf. induction l as [|a l IH]; [reflexivity|].
  rewrite bind_cons, length_app, IH, Hf, filter_cons.
  destruct (p a); [|reflexivity].
  destruct (decide (true = true)); [reflexivity | congruence].
Qed.

Lemma length_drawButton (b : Button.t) :
  length (Gamepad.drawButton b) = if button_shows b then 1%nat else 0%nat.
Proof.
  unfold Gamepad.drawButton, button_shows.
  destruct (Button._pressed b), (Button._focusTextureEnabled b),
    (Button._defaultTextureEnabled b); reflexivity.
Qed.

(** X10. How a button is drawn: with its focus texture coordinates when
    it is pressed and has a focus texture; with its default texture
    coordinates when it has a default texture and is released, or pressed
    without a focus texture; always at its region. *)
Theorem draw_button (g : Gamepad.t) (i : nat) (b : Button.t) :
  Gamepad._buttons g !! i = Some b ->
  (Button._pressed b = BUTTON_PRESSED ->
   Button._focusTextureEnabled b = true ->
   Gamepad.drawButton b
   = [sprite_at (Button._region b) (Button._focusTexCoord b)]
   /\ sprite_at (Button._region b) (Button._focusTexCoord b)
      ∈ Gamepad.draw g)
  /\ (Button._pressed b = BUTTON_RELEASED
      \/ Button._focusTextureEnabled b = false ->
      Button._defaultTextureEnabled b = true ->
      Gamepad.drawButton b
      = [sprite_at (Button._region b) (Button._defaultTexCoord b)]
      /\ sprite_at (Button._region b) (Button._defaultTexCoord b)
         ∈ Gamepad.draw g)
  /\ (Button._pressed b = BUTTON_RELEASED
      \/ Button._focusTextureEnabled b = false ->
      Button._defaultTextureEnabled b = false ->
      Gamepad.drawButton b = []).
Proof.
  intros Hb.
  assert (Hin : forall s, Gamepad.drawButton b = [s] -> s ∈ Gamepad.draw g).
  { intros s Hs. apply (drawButton_in_draw g i b s Hb). rewrite Hs.
    now apply list_elem_of_singleton. }
  unfold Gamepad.drawButton in *. split; [|split].
  - intros Hp Hf. rewrite Hp, Hf in *. split; [reflexivity|].
    now apply Hin.
  - intros Hstate Hd. rewrite Hd in *.
    assert (Hdraw : match Button._pressed b, Button._focusTextureEnabled b with
                    | BUTTON_PRESSED, true =>
                        [Sprite.mk (Rect.x (Button._region b))
                           (Rect.y (Button._region b))
                           (Rect.width (Button._region b))
                           (Rect.height (Button._region b))
                           (Button._focusTexCoord b)]
                    | _, _ =>
                        [Sprite.mk (Rect.x (Button._region b))
                           (Rect.y (Button._region b))
                           (Rect.width (Button._region b))
                           (Rect.height (Button._region b))
                           (Button._defaultTexCoord b)]
                    end
                    = [sprite_at (Button._region b)
                         (Button._defaultTexCoord b)]).
    { destruct Hstate as [-> | ->]; [reflexivity|].
      now destruct (Button._pressed b). }
    split; [exact Hdraw|]. now apply Hin.
  - intros Hstate Hd. rewrite Hd.
    destruct Hstate as [-> | ->]; [reflexivity|].
    now destruct (Button._pressed b).
Qed.

Lemma draw_button_witness :
  let released :=
    Gamepad.touch Demo.MAX_TOUCH_INPUTS Demo.held 0 0 TOUCH_RELEASE 0 in
  Gamepad.getButtonState Demo.held 0 = Some BUTTON_PRESSED
  /\ sprite_at (Demo.rect 10 10 40 40)
       (Gamepad.texCoord Demo.texture (Demo.rect 64 0 64 64))
     ∈ Gamepad.draw Demo.held
  /\ sprite_at (Demo.rect 10 10 40 40)
       (Gamepad.texCoord Demo.texture (Demo.rect 0 0 64 64))
     ∈ Gamepad.draw released.
Proof.
  cbv zeta. split; [reflexivity|]. split.
  - destruct (draw_button Demo.held 0 _ eq_refl) as [Hfocus _].
    exact (proj2 (Hfocus eq_refl eq_refl)).
  - destruct (draw_button
                (Gamepad.touch Demo.MAX_TOUCH_INPUTS Demo.held 0 0
                   TOUCH_RELEASE 0) 0 _ eq_refl) as (_ & Hdefault & _).
    exact (proj2 (Hdefault (or_introl eq_refl) eq_refl)).
Defined.

(** X11. [draw] emits one sprite for every button that shows (pressed
    with a focus texture, or with a default texture), one for every
    enabled outer joggle and one for every enabled inner joggle: never
    more than one per button and two per joystick. *)
Theorem draw_length (g : Gamepad.t) :
  length (Gamepad.draw g)
  = (length (filter (fun b => button_shows b = true) (Gamepad._buttons g))
     + length (filter
                 (fun j => Joystick._defaultTextureOuterEnabled j = true)
                 (Gamepad._joysticks g))
     + length (filter
                 (fun j => Joystick._defaultTextureInnerEnabled j = true)
                 (Gamepad._joysticks g)))%nat
  /\ (length (Gamepad.draw g)
      <= length (Gamepad._buttons g) + 2 * length (Gamepad._joysticks g))%nat.
Proof.
  assert (Hlen : length (Gamepad.draw g)
                 = (length (filter (fun b => button_shows b = true)
                              (Gamepad._buttons g))
                    + length (filter
                                (fun j => Joystick._defaultTextureOuterEnabled
                                            j = true)
                                (Gamepad._joysticks g))
                    + length (filter
                                (fun j => Joystick._defaultTextureInnerEnabled
                                            j = true)
                                (Gamepad._joysticks g)))%nat).
  { unfold Gamepad.draw. rewrite length_app.
    rewrite (length_bind_filter Gamepad.drawButton button_shows)
      by apply length_drawButton.
    rewrite <- Nat.add_assoc. f_equal.
    induction (Gamepad._joysticks g) as [|j js IH]; [reflexivity|].
    rewrite bind_cons, !length_app, IH, !filter_cons.
    unfold Gamepad.drawOuter, Gamepad.drawInner.
    destruct (Joystick._defaultTextureOuterEnabled j),
      (Joystick._defaultTextureInnerEnabled j);
      repeat (destruct (decide _); try congruence);
      destruct (Gamepad.innerJoggleCenter j); simpl; lia. }
  split; [exact Hlen|]. rewrite Hlen.
  pose proof (length_filter (fun b => button_shows b = true)
                (Gamepad._buttons g)).
  pose proof (length_filter
                (fun j => Joystick._defaultTextureOuterEnabled j = true)
                (Gamepad._joysticks g)).
  pose proof (length_filter
                (fun j => Joystick._defaultTextureInnerEnabled j = true)
                (Gamepad._joysticks g)).
  lia.
Qed.

Lemma touches_joystick_config (MAX_TOUCH_INPUTS : N) g calls (i : nat) j :
  Gamepad._joysticks g !! i = Some j ->
  exists j',
    Gamepad._joysticks (touches MAX_TOUCH_INPUTS g calls) !! i = Some j'
    /\ Joystick_config j' = Joystick_config j.
Proof.
  intros Hj.
  destruct (touches_config MAX_TOUCH_INPUTS calls g) as (_ & Hcfg & _).
  cbv zeta in Hcfg.
  apply (f_equal (fun l => l !! i)) in Hcfg.
  rewrite !list_lookup_fmap, Hj in Hcfg.
  destruct (Gamepad._joysticks (touches MAX_TOUCH_INPUTS g calls) !! i)
    as [j'|]; [|discriminate Hcfg].
  exists j'. split; [reflexivity|].
  cbn [fmap option_fmap option_map] in Hcfg. congruence.
Qed.

(** X12. The outer joggle does not follow the finger: whatever touches
    arrive, a joystick whose outer texture is enabled is drawn with its
    outer joggle centred at the position of the outer region, in the size
    of the outer region. *)
Theorem draw_outer_joggle_fixed (MAX_TOUCH_INPUTS : N) (g : Gamepad.t)
    (calls : list TouchCall) (i : nat) (j : Joystick.t) :
  Gamepad._joysticks g !! i = Some j ->
  Joystick._defaultTextureOuterEnabled j = true ->
  sprite_centred (Rect.x (Joystick._regionOuter j))
    (Rect.y (Joystick._regionOuter j)) (Joystick._regionOuter j)
    (Joystick._defaultTexCoordOuter j)
  ∈ Gamepad.draw (touches MAX_TOUCH_INPUTS g calls).
Proof.
  intros Hj Houter.
  destruct (touches_joystick_config MAX_TOUCH_INPUTS g calls i j Hj)
    as (j' & Hj' & Hcfg).
  apply (drawOuter_in_draw _ i j' _ Hj').
  unfold Joystick_config in Hcfg.
  injection Hcfg as _ _ Hro _ Hto _ Hoe.
  unfold Gamepad.drawOuter. rewrite Hoe, Houter, Hro, Hto.
  now apply list_elem_of_singleton.
Qed.

Lemma draw_outer_joggle_fixed_witness :
  Joystick._defaultTextureOuterEnabled
    <$> Gamepad._joysticks Demo.pad !! 0%nat = Some true
  /\ Sprite.mk (F32.of_int 136) (F32.of_int 136)
               (F32.of_int 128) (F32.of_int 128)
               (Gamepad.texCoord Demo.texture (Demo.rect 128 128 128 128))
     ∈ Gamepad.draw
         (touches Demo.MAX_TOUCH_INPUTS Demo.pad
            [mkTouch 210 190 TOUCH_PRESS 1; mkTouch 240 240 TOUCH_MOVE 1]).
Proof.
  split; [reflexivity|].
  pose proof (draw_outer_joggle_fixed Demo.MAX_TOUCH_INPUTS Demo.pad
                [mkTouch 210 190 TOUCH_PRESS 1; mkTouch 240 240 TOUCH_MOVE 1]
                0 _ eq_refl eq_refl) as Hdraw.
  exact Hdraw.
Defined.

(** X13. Within the radius the inner joggle is drawn under the finger:
    after a press that activates a joystick, or a press or move of the
    contact that holds it, at [(x, y)] with
    [dx = x - regionInner.x], [dy = y - regionInner.y] and
    [dx * dx + dy * dy <= radius * radius], a joystick whose inner texture
    is enabled is drawn with its inner joggle centred at
    [(regionInner.x + dx, regionInner.y + dy)]. *)
Theorem draw_inner_joggle_follows (MAX_TOUCH_INPUTS : N) (g : Gamepad.t)
    (x y : Z) (touchEvent : TouchEvent) (c : N) (i : nat)
    (j : Joystick.t) :
  (c < MAX_TOUCH_INPUTS)%N ->
  Gamepad._joysticks g !! i = Some j ->
  (touchEvent = TOUCH_PRESS
   /\ Joystick._contactIndex j = INVALID_CONTACT_INDEX
   /\ in_box (Rect.x (Joystick._regionInner j))
             (Rect.y (Joystick._regionInner j)) (Joystick._radius j) x y
      = true)
  \/ ((touchEvent = TOUCH_PRESS \/ touchEvent = TOUCH_MOVE)
      /\ Joystick._contactIndex j = c) ->
  Joystick._defaultTextureInnerEnabled j = true ->
  let dx := (F32.of_int x - Rect.x (Joystick._regionInner j))%f32 in
  let dy := (F32.of_int y - Rect.y (Joystick._regionInner j))%f32 in
  Gamepad.withinRadius dx dy (Joystick._radius j) = true ->
  sprite_centred (Rect.x (Joystick._regionInner j) + dx)%f32
    (Rect.y (Joystick._regionInner j) + dy)%f32 (Joystick._regionInner j)
    (Joystick._defaultTexCoordInner j)
  ∈ Gamepad.draw (Gamepad.touch MAX_TOUCH_INPUTS g x y touchEvent c).
Proof.
  intros Hc Hj Hev Hinner dx dy Hwithin.
  pose proof (touch_joystick_at MAX_TOUCH_INPUTS g x y touchEvent c i j Hc Hj)
    as Hj'.
  assert (Hmoved : Gamepad.touchJoystick x y touchEvent c j
                   = Gamepad.moveJoystick x y c
                       (if Joystick._contactIndex j =? c then j
                        else Joystick.reset j c)%N).
  { destruct Hev as [(-> & Hfree & Hin) | [[-> | ->] Hbound]];
      cbn [Gamepad.touchJoystick].
    - rewrite pressJoystick_free, joystickHit_in_box, Hin by assumption.
      destruct (N.eqb_spec (Joystick._contactIndex j) c) as [Heq|];
        [|reflexivity].
      rewrite !moveJoystick_bound by (try exact Heq; reflexivity).
      reflexivity.
    - rewrite Hbound, N.eqb_refl. unfold Gamepad.pressJoystick.
      destruct (_ && _); [|reflexivity].
      rewrite !moveJoystick_bound by (try exact Hbound; reflexivity).
      reflexivity.
    - now rewrite Hbound, N.eqb_refl. }
  rewrite Hmoved in Hj'.
  rewrite moveJoystick_bound in Hj'
    by (destruct (N.eqb_spec (Joystick._contactIndex j) c); easy).
  apply (drawInner_in_draw _ i _ _ Hj').
  assert (Hsame : forall j0 : Joystick.t,
             (if (Joystick._contactIndex j =? c)%N then j
              else Joystick.reset j c) = j0 ->
             Joystick._regionInner j0 = Joystick._regionInner j
             /\ Joystick._radius j0 = Joystick._radius j
             /\ Joystick._defaultTextureInnerEnabled j0
                = Joystick._defaultTextureInnerEnabled j
             /\ Joystick._defaultTexCoordInner j0
                = Joystick._defaultTexCoordInner j).
  { intros j0 <-. now destruct (_ =? _)%N. }
  destruct (Hsame _ eq_refl) as (Hr & Hrad & Hie & Hti).
  unfold Gamepad.drawInner, Gamepad.innerJoggleCenter,
    Gamepad.innerJoggleOffset, displacementOf.
  cbn [Joystick._defaultTextureInnerEnabled Joystick._regionInner
       Joystick._radius Joystick._displacement Joystick._defaultTexCoordInner
       Vector2.x Vector2.y].
  rewrite Hr, Hrad, Hie, Hti, Hinner. fold dx dy. rewrite Hwithin.
  cbn [Vector2.x Vector2.y]. now apply list_elem_of_singleton.
Qed.

Lemma draw_inner_joggle_follows_witness :
  (1 < Demo.MAX_TOUCH_INPUTS)%N
  /\ Gamepad.isJoystickActive Demo.held 0 = Some true
  /\ Sprite.mk (F32.of_int 214) (F32.of_int 184)
               (F32.of_int 32) (F32.of_int 32)
               (Gamepad.texCoord Demo.texture (Demo.rect 128 0 32 32))
     ∈ Gamepad.draw
         (Gamepad.touch Demo.MAX_TOUCH_INPUTS Demo.held 230 200 TOUCH_MOVE 1).
Proof.
  split; [reflexivity|]. split; [reflexivity|].
  pose proof (draw_inner_joggle_follows Demo.MAX_TOUCH_INPUTS Demo.held
                230 200 TOUCH_MOVE 1 0 _ eq_refl eq_refl
                (or_intror (conj (or_intror eq_refl) eq_refl)) eq_refl)
    as Hdraw.
  cbv zeta in Hdraw. specialize (Hdraw ltac:(vm_compute; reflexivity)).
  vm_compute in Hdraw |- *. exact Hdraw.
Defined.

(** ** A joystick of radius zero *)

Lemma SFcompare_finite_Eq s1 m1 e1 s2 m2 e2 :
  SFcompare (S754_finite s1 m1 e1) (S754_finite s2 m2 e2) = Some Eq ->
  s1 = s2 /\ m1 = m2 /\ e1 = e2.
Proof.
  cbn [SFcompare]. change (Pcompare ?p ?q Eq) with (Pos.compare p q).
  destruct s1, s2; try discriminate;
    destruct (Z.compare_spec e1 e2) as [He| |]; try discriminate;
    destruct (Pos.compare_spec m1 m2) as [Hm| |]; try discriminate;
    intros _; now subst.
Qed.

Lemma F32_sub_diag s m e :
  F32.sub (S754_finite s m e) (S754_finite s m e) = S754_zero false.
Proof.
  unfold F32.sub. cbn [SFsub]. now rewrite Z.sub_diag.
Qed.

(** With a zero radius the box around [b] is the point [b] itself: a
    coordinate [a] in it is [b], and the displacement [a - b] is a
    zero. *)
Lemma zero_radius_displacement (a b r : F32.float) :
  is_zero r = true ->
  is_number b = true ->
  ((b - r <=? a) && (a <=? b + r))%f32 = true ->
  is_zero (a - b)%f32 = true.
Proof.
  destruct r as [sr| | |]; try discriminate. intros _.
  destruct b as [sb| | |sb mb eb]; try discriminate; intros _.
  - destruct a as [[]|[]| |[] ma ea], sb, sr; intros Hbox;
      first [reflexivity | discriminate Hbox].
  - change (S754_finite sb mb eb - S754_zero sr)%f32
      with (S754_finite sb mb eb).
    change (S754_finite sb mb eb + S754_zero sr)%f32
      with (S754_finite sb mb eb).
    intros Hbox. apply andb_true_iff in Hbox as [Hge Hle].
    unfold F32.le in Hge, Hle.
    rewrite (SFcompare_swap a (S754_finite sb mb eb)) in Hge.
    destruct (SFcompare a (S754_finite sb mb eb)) as [[]|] eqn:Hcmp;
      try discriminate.
    destruct a as [sa|sa| |sa ma ea].
    + destruct sb; discriminate.
    + destruct sa; discriminate.
    + discriminate.
    + apply SFcompare_finite_Eq in Hcmp as (-> & -> & ->).
      now rewrite F32_sub_diag.
Qed.

Lemma zero_radius_direction (dX dY r : F32.float) :
  is_zero dX = true -> is_zero dY = true -> is_zero r = true ->
  scaledDirection (Vector2.mk dX dY) r = Vector2.mk S754_nan S754_nan.
Proof.
  destruct dX as [sx| | |]; try discriminate.
  destruct dY as [sy| | |]; try discriminate.
  destruct r as [sr| | |]; try discriminate.
  intros _ _ _. now destruct sx, sy, sr.
Qed.

(** X14. A joystick whose radius is zero, as the constructor leaves it
    and [setJoystick] may set it, can be activated only by a press at the
    very position of its inner region, and then reports the direction
    [(NaN, NaN)]: the zero displacement is scaled by [1.0f / 0]. *)
Theorem zero_radius_direction_nan (MAX_TOUCH_INPUTS : N) (g : Gamepad.t)
    (x y : Z) (c : N) (i : nat) (j : Joystick.t) :
  (c < MAX_TOUCH_INPUTS)%N ->
  Gamepad._joysticks g !! i = Some j ->
  Joystick._contactIndex j = INVALID_CONTACT_INDEX ->
  is_zero (Joystick._radius j) = true ->
  is_number (Rect.x (Joystick._regionInner j)) = true ->
  is_number (Rect.y (Joystick._regionInner j)) = true ->
  in_box (Rect.x (Joystick._regionInner j))
         (Rect.y (Joystick._regionInner j)) (Joystick._radius j) x y
  = true ->
  let g' := Gamepad.touch MAX_TOUCH_INPUTS g x y TOUCH_PRESS c in
  is_zero (Vector2.x (displacementOf j x y)) = true
  /\ is_zero (Vector2.y (displacementOf j x y)) = true
  /\ Gamepad.getJoystickState g' (N.of_nat i)
     = Some (Vector2.mk S754_nan S754_nan).
Proof.
  intros Hc Hj Hfree Hr Hx Hy Hin g'.
  unfold in_box in Hin. rewrite <- !andb_assoc in Hin.
  apply andb_true_iff in Hin as [Hx1 Hin].
  apply andb_true_iff in Hin as [Hx2 Hin].
  assert (HdX : is_zero (Vector2.x (displacementOf j x y)) = true).
  { apply (zero_radius_displacement _ _ _ Hr Hx). now rewrite Hx1, Hx2. }
  assert (HdY : is_zero (Vector2.y (displacementOf j x y)) = true).
  { apply (zero_radius_displacement _ _ _ Hr Hy). exact Hin. }
  split; [exact HdX|]. split; [exact HdY|].
  pose proof (touch_joystick_at MAX_TOUCH_INPUTS g x y TOUCH_PRESS c i j Hc Hj)
    as Hj'.
  fold g' in Hj'. rewrite (getJoystickState_lookup _ _ _ Hj').
  cbn [Gamepad.touchJoystick]. unfold Gamepad.pressJoystick.
  rewrite joystickHit_in_box. unfold in_box.
  apply andb_true_iff in Hin as [Hy1 Hy2].
  rewrite <- !andb_assoc, Hx1, Hx2, Hy1, Hy2, Hfree, N.eqb_refl.
  cbn [andb]. rewrite moveJoystick_bound by reflexivity.
  cbn [Joystick._direction Joystick.reset Joystick._radius].
  f_equal.
  change (displacementOf (Joystick.reset j c) x y)
    with (displacementOf j x y).
  destruct (displacementOf j x y) as [dX dY]. cbn [Vector2.x Vector2.y] in *.
  now apply zero_radius_direction.
Qed.

Lemma zero_radius_direction_nan_witness :
  let g := Demo.originPad F32.zero in
  (0 < Demo.MAX_TOUCH_INPUTS)%N
  /\ Gamepad.isJoystickActive g 0 = Some false
  /\ Gamepad.isJoystickActive
       (Gamepad.touch Demo.MAX_TOUCH_INPUTS g 0 0 TOUCH_PRESS 0) 0
     = Some true
  /\ Gamepad.getJoystickState
       (Gamepad.touch Demo.MAX_TOUCH_INPUTS g 0 0 TOUCH_PRESS 0) 0
     = Some (Vector2.mk S754_nan S754_nan).
Proof.
  cbv zeta. split; [reflexivity|]. split; [reflexivity|].
  split; [vm_compute; reflexivity|].
  refine (proj2 (proj2 (zero_radius_direction_nan Demo.MAX_TOUCH_INPUTS
                          (Demo.originPad F32.zero) 0 0 0 0 _ eq_refl eq_refl
                          eq_refl eq_refl eq_refl eq_refl _))).
  vm_compute; reflexivity.
Defined.

(** ** Touches that hit or hold nothing *)

(** X15. An event that concerns no control leaves the gamepad exactly as
    it was: a press whose point lies in no free button and in the box of
    no free joystick, a move or a release, provided in each case that the
    contact holds no joystick and, for a release, no button. *)
Theorem touch_without_effect (MAX_TOUCH_INPUTS : N) (g : Gamepad.t)
    (x y : Z) (touchEvent : TouchEvent) (c : N) :
  (forall (i : nat) (j : Joystick.t),
      Gamepad._joysticks g !! i = Some j -> Joystick._contactIndex j <> c) ->
  (touchEvent = TOUCH_PRESS ->
   (forall (i : nat) (b : Button.t),
       Gamepad._buttons g !! i = Some b ->
       Button._contactIndex b = INVALID_CONTACT_INDEX ->
       Rect_contains (Button._region b) x y = false)
   /\ (forall (i : nat) (j : Joystick.t),
          Gamepad._joysticks g !! i = Some j ->
          Joystick._contactIndex j = INVALID_CONTACT_INDEX ->
          in_box (Rect.x (Joystick._regionInner j))
                 (Rect.y (Joystick._regionInner j)) (Joystick._radius j) x y
          = false)) ->
  (touchEvent = TOUCH_RELEASE ->
   forall (i : nat) (b : Button.t),
     Gamepad._buttons g !! i = Some b -> Button._contactIndex b <> c) ->
  Gamepad.touch MAX_TOUCH_INPUTS g x y touchEvent c = g.
Proof.
  intros Hjoysticks Hpress Hrelease. unfold Gamepad.touch.
  destruct (MAX_TOUCH_INPUTS <=? c)%N; [reflexivity|].
  destruct g as [js bs texture ts].
  cbn [Gamepad._joysticks Gamepad._buttons Gamepad._texture
       Gamepad._touches] in *.
  f_equal.
  - rewrite <- (list_fmap_id js) at 2. apply list_fmap_ext.
    intros i j Hj. pose proof (Hjoysticks i j Hj) as Hother.
    apply N.eqb_neq in Hother.
    destruct touchEvent; cbn [Gamepad.touchJoystick];
      unfold Gamepad.moveJoystick; rewrite ?Hother; try reflexivity.
    destruct (Hpress eq_refl) as [_ Hmiss].
    unfold Gamepad.pressJoystick.
    destruct (N.eqb_spec (Joystick._contactIndex j) INVALID_CONTACT_INDEX)
      as [Hfree|].
    + rewrite joystickHit_in_box, (Hmiss i j Hj Hfree). cbn [andb].
      now rewrite Hother.
    + rewrite andb_false_r. now rewrite Hother.
  - rewrite <- (list_fmap_id bs) at 2. apply list_fmap_ext.
    intros i b Hb.
    destruct touchEvent; cbn [Gamepad.touchButton]; try reflexivity.
    + destruct (Hpress eq_refl) as [Hmiss _].
      destruct (N.eqb_spec (Button._contactIndex b) INVALID_CONTACT_INDEX)
        as [Hfree|]; [|reflexivity].
      now rewrite buttonHit_contains, (Hmiss i b Hb Hfree).
    + pose proof (Hrelease eq_refl i b Hb) as Hother.
      apply N.eqb_neq in Hother. now rewrite Hother.
Qed.

Lemma touch_without_effect_witness :
  Gamepad.touch Demo.MAX_TOUCH_INPUTS Demo.pad 120 120 TOUCH_PRESS 0
  = Demo.pad
  /\ Gamepad.touch Demo.MAX_TOUCH_INPUTS Demo.pad 20 20 TOUCH_PRESS 0
     <> Demo.pad.
Proof.
  split.
  - apply touch_without_effect.
    + intros [|i] j [= <-]; vm_compute; discriminate.
    + intros _. split.
      * intros [|[|i]] b [= <-] _; vm_compute; reflexivity.
      * intros [|i] j [= <-] _; vm_compute; reflexivity.
    + discriminate.
  - intros H. apply (f_equal (fun g => Gamepad.getButtonState g 0)) in H.
    vm_compute in H. discriminate H.
Defined.

(** ** A configured joystick *)

(** X16. A joystick that is not held, once given its inner region and
    radius by [setJoystick], is activated by a press at any point of the
    box around the region's position; the release of that contact makes
    it inactive again, with the zero direction. *)
Theorem setJoystick_press_release (MAX_TOUCH_INPUTS : N) (g g' : Gamepad.t)
    (index : N) (r : Rect.t) (texInner outer texOuter : option Rect.t)
    (radius : F32.float) (x y x' y' : Z) (c : N) :
  (MAX_TOUCH_INPUTS <= UINT_MAX)%N ->
  (c < MAX_TOUCH_INPUTS)%N ->
  Gamepad.setJoystick g index (Some r) texInner outer texOuter radius
  = Some g' ->
  Joystick._contactIndex <$> Gamepad._joysticks g !! N.to_nat index
  = Some INVALID_CONTACT_INDEX ->
  in_box (Rect.x r) (Rect.y r) radius x y = true ->
  let pressed := Gamepad.touch MAX_TOUCH_INPUTS g' x y TOUCH_PRESS c in
  let released :=
    Gamepad.touch MAX_TOUCH_INPUTS pressed x' y' TOUCH_RELEASE c in
  Gamepad.isJoystickActive pressed index = Some true
  /\ Gamepad.isJoystickActive released index = Some false
  /\ Gamepad.getJoystickState released index = Some Vector2.zero.
Proof.
  intros Hmax Hc Hset Hfree Hin pressed released.
  pose proof (contact_below_MAX_valid _ _ Hmax Hc) as Hvalid.
  apply N.eqb_neq in Hvalid.
  destruct (setJoystick_inv _ _ _ _ _ _ _ _ Hset)
    as (j & j' & Hj & -> & _ & _ & Hc' & Hrad & Hri & _).
  rewrite Hj in Hfree. injection Hfree as Hfree. simpl in Hri.
  pose proof (lookup_lt_Some _ _ _ Hj) as Hlen.
  assert (Hj' : Gamepad._joysticks
                  (Gamepad.with_joysticks g
                     (<[N.to_nat index:=j']> (Gamepad._joysticks g)))
                  !! N.to_nat index = Some j').
  { cbn [Gamepad.with_joysticks Gamepad._joysticks].
    now apply list_lookup_insert_eq. }
  pose proof (touch_joystick_at MAX_TOUCH_INPUTS _ x y TOUCH_PRESS c _ _ Hc
                Hj') as Hp.
  fold pressed in Hp.
  pose proof (touch_joystick_at MAX_TOUCH_INPUTS _ x' y' TOUCH_RELEASE c _ _
                Hc Hp) as Hq.
  fold released in Hq.
  rewrite <- (N2Nat.id index).
  rewrite (isJoystickActive_lookup _ _ _ Hp),
    (isJoystickActive_lookup _ _ _ Hq), (getJoystickState_lookup _ _ _ Hq).
  cbn [Gamepad.touchJoystick].
  rewrite moveJoystick_contactIndex.
  rewrite pressJoystick_free by congruence.
  rewrite joystickHit_in_box, Hri, Hrad, Hin.
  cbn [Joystick.reset Joystick._contactIndex]. rewrite Hvalid.
  rewrite moveJoystick_bound by reflexivity.
  cbn [Joystick._contactIndex Joystick.reset Joystick._direction].
  rewrite N.eqb_refl.
  cbn [Joystick.reset Joystick._contactIndex Joystick._direction].
  repeat split.
Qed.

Lemma setJoystick_press_release_witness :
  exists g',
    (Demo.MAX_TOUCH_INPUTS <= UINT_MAX)%N
    /\ (4 < Demo.MAX_TOUCH_INPUTS)%N
    /\ Gamepad.setJoystick Demo.pad 0 (Some (Demo.rect 100 50 32 32)) None
         None None (F32.of_int 10)
       = Some g'
    /\ Gamepad.isJoystickActive
         (Gamepad.touch Demo.MAX_TOUCH_INPUTS Demo.pad 95 60 TOUCH_PRESS 4) 0
       = Some false
    /\ Gamepad.isJoystickActive
         (Gamepad.touch Demo.MAX_TOUCH_INPUTS g' 95 60 TOUCH_PRESS 4) 0
       = Some true.
Proof.
  destruct (Gamepad.setJoystick Demo.pad 0 (Some (Demo.rect 100 50 32 32))
              None None None (F32.of_int 10)) as [g'|] eqn:Hset;
    [|discriminate Hset].
  exists g'. split; [exact Demo_MAX_uint|]. split; [reflexivity|].
  split; [reflexivity|]. split; [vm_compute; reflexivity|].
  refine (proj1 (setJoystick_press_release Demo.MAX_TOUCH_INPUTS Demo.pad g'
                   0 (Demo.rect 100 50 32 32) None None None (F32.of_int 10)
                   95 60 0 0 4 Demo_MAX_uint eq_refl Hset eq_refl _)).
  vm_compute; reflexivity.
Defined.
